(** * LS7366R quadrature-counter driver: model and properties

    A shallow embedding of [firmware/SpiTest/src/LS7366R.{hpp,cpp}].

    - C++ fixed-width integers are [Z] values with the two's-complement
      wrap-around written out ([s16], [s32], [u32]).
    - The [float] multiplier is an exact rational ([Q]).  The code computes
      [round (multiplier * value)] in binary32: the count is converted to
      [float], and the product and the half-unit offset of [round] are
      rounded.  The exact computation of the model returns what the code
      returns at the concrete inputs evaluated below, which is checked
      against the floating-point computation written out in [Binary32], and
      at the count 0; elsewhere the two may differ (with multiplier 1.0 the
      count 16777217 becomes 16777216 in binary32).  No general statement
      depends on it: what is proved about [Format] for all inputs takes the
      value that the scaling step returned as given and describes what the
      integer code after it does with that value.
    - A conversion from floating point to [int32_t] that does not fit and a
      remainder by zero have no defined result in C++; both are faults.
    - The Arduino runtime ([SPI], [digitalWrite], ...) is a state monad over
      a [World] that holds the pin levels, the SPI slave and a log of the
      bus activity. *)

From Stdlib Require Import ZArith QArith Bool List Lia.
From Stdlib Require SpecFloat.
Import ListNotations.
Local Open Scope Z_scope.

(** ** Fixed-width integers *)

Module Int.

(** Reduction to a signed [w]-bit value. *)
Definition signed (w : Z) (x : Z) : Z :=
  (x + 2 ^ (w - 1)) mod 2 ^ w - 2 ^ (w - 1).

(** Reduction to an unsigned [w]-bit value. *)
Definition unsigned (w : Z) (x : Z) : Z := x mod 2 ^ w.

Definition s16 : Z -> Z := signed 16.
Definition s32 : Z -> Z := signed 32.
Definition u8 : Z -> Z := unsigned 8.
Definition u32 : Z -> Z := unsigned 32.

Definition INT16_MIN : Z := - 2 ^ 15.
Definition INT16_MAX : Z := 2 ^ 15 - 1.
Definition INT32_MIN : Z := - 2 ^ 31.
Definition INT32_MAX : Z := 2 ^ 31 - 1.
Definition UINT32_MAX : Z := 2 ^ 32 - 1.

Definition is_int16 (x : Z) : Prop := INT16_MIN <= x <= INT16_MAX.
Definition is_int32 (x : Z) : Prop := INT32_MIN <= x <= INT32_MAX.
Definition is_uint8 (x : Z) : Prop := 0 <= x <= 255.
Definition is_uint32 (x : Z) : Prop := 0 <= x <= UINT32_MAX.

Definition is_int32b (x : Z) : bool := (INT32_MIN <=? x) && (x <=? INT32_MAX).

(** The reading of an unsigned [w]-bit pattern as a two's-complement number:
    patterns with the top bit set stand for negative values. *)
Definition twos_complement (w : Z) (u : Z) : Z :=
  if Z.testbit u (w - 1) then u - 2 ^ w else u.

End Int.
Import Int.

(** ** Faults *)

Inductive fault : Type :=
| DivideByZero
| ConversionOverflow.

Inductive result (A : Type) : Type :=
| Ok (a : A)
| Fault (f : fault).
Arguments Ok {A} a.
Arguments Fault {A} f.

Definition result_bind {A B : Type} (r : result A) (k : A -> result B) : result B :=
  match r with
  | Ok a => k a
  | Fault f => Fault f
  end.

Declare Scope result_scope.
Delimit Scope result_scope with result.
Notation "'let?' x ':=' r 'in' k" :=
  (result_bind r (fun x => k))
  (at level 10, x name, r at level 100, k at level 200) : result_scope.
Local Open Scope result_scope.

(** Remainder of two [uint32_t] operands. *)
Definition urem (a b : Z) : result Z :=
  if b =? 0 then Fault DivideByZero else Ok (a mod b).

(** ** Arduino arithmetic helpers *)

(** Truncation of a rational toward zero: the C conversion [(long) x]. *)
Definition Qtrunc (x : Q) : Z := Z.quot (Qnum x) (Zpos (Qden x)).

(** Modelled from the spec: [round] is a macro of <Arduino.h>, which is not
    part of the source tree.  The spec only says [round(3.5) == 4]; this is
    the macro of the Arduino core,
    [((x)>=0?(long)((x)+0.5):(long)((x)-0.5))], which rounds to the nearest
    integer and halves away from zero. *)
Definition round (x : Q) : Z :=
  if Qle_bool 0 x then Qtrunc (x + (1 # 2)) else Qtrunc (x - (1 # 2)).

(** Modelled from the spec: [abs] is a macro of <Arduino.h> as well,
    [((x)>0?(x):-(x))], here at type [int32_t]. *)
Definition abs (x : Z) : Z := if x >? 0 then x else s32 (- x).

(** Conversion of an integral floating-point value to [int32_t]. *)
Definition to_int32 (x : Z) : result Z :=
  if is_int32b x then Ok x else Fault ConversionOverflow.

(** ** The driver object *)

Inductive CounterMode : Type :=
| BITS_32
| BITS_16.

(** The enumerators' values, which are also the MDR1 width codes. *)
Definition CounterMode_code (m : CounterMode) : Z :=
  match m with
  | BITS_32 => 0
  | BITS_16 => 2
  end.

Definition CounterMode_eqb (a b : CounterMode) : bool :=
  CounterMode_code a =? CounterMode_code b.

Record LS7366R : Type := mkLS7366R {
  ss : Z;                (* uint8_t *)
  mode : CounterMode;
  multiplier : Q;        (* float *)
  range : Z;             (* uint32_t *)
  reverse : bool
}.

(** ** Format *)

(** [value = round(multiplier * value);], computed exactly where the code
    computes in binary32; the result is stored in an [int32_t]. *)
Definition scaled (m : Q) (value : Z) : result Z :=
  to_int32 (round (m * inject_Z value)).

Definition Format (self : LS7366R) (value : Z) : result Z :=
  let? value := scaled (multiplier self) value in
  if range self <=? 0 then Ok value
  else if value >=? 0 then
    let? r := urem (u32 value) (range self) in
    Ok (s32 r)
  else
    let? r := urem (u32 (abs value)) (range self) in
    Ok (s32 (u32 (range self - r))).

(** ** The scaling step in binary32 *)

(** [scaled] computes the product and the offset of [round] exactly.  This
    module writes out the floating-point computation of the same line, over
    the Standard Library's specification of IEEE 754 arithmetic, so that the
    two can be compared at given inputs. *)
Module Binary32.
Import SpecFloat.

Definition prec : Z := 24.
Definition emax : Z := 128.

(** [round] adds [0.5], a [double] literal, so the sum is a [double]: as
    wide as a [float] on AVR, 64 bits wide elsewhere. *)
Inductive Double : Type := Double32 | Double64.

Definition double_prec (d : Double) : Z :=
  match d with Double32 => 24 | Double64 => 53 end.

Definition double_emax (d : Double) : Z :=
  match d with Double32 => 128 | Double64 => 1024 end.

(** [(float) value], to the nearest. *)
Definition of_int (value : Z) : spec_float :=
  binary_normalize prec emax value 0 false.

(** The [float] that a multiplier written as a fraction stands for. *)
Definition of_rational (m : Q) : spec_float :=
  SFdiv prec emax (of_int (Qnum m)) (of_int (Z.pos (Qden m))).

Definition half (d : Double) : spec_float :=
  binary_normalize (double_prec d) (double_emax d) 1 (-1) false.

(** [(long) x]: the integer part, where there is one that fits. *)
Definition to_long (x : spec_float) : result Z :=
  match x with
  | S754_zero _ => Ok 0
  | S754_finite s m e =>
      let magnitude := if 0 <=? e then Z.pos m * 2 ^ e else Z.pos m / 2 ^ (- e) in
      to_int32 (if s then - magnitude else magnitude)
  | S754_infinity _ | S754_nan => Fault ConversionOverflow
  end.

(** [((x)>=0?(long)((x)+0.5):(long)((x)-0.5))] *)
Definition round_macro (d : Double) (x : spec_float) : result Z :=
  if SFleb (S754_zero false) x
  then to_long (SFadd (double_prec d) (double_emax d) x (half d))
  else to_long (SFsub (double_prec d) (double_emax d) x (half d)).

(** [value = round(multiplier * value);] *)
Definition scaling (d : Double) (m : Q) (value : Z) : result Z :=
  round_macro d (SFmul prec emax (of_rational m) (of_int value)).

End Binary32.

(** The multipliers and counts that reach the scaling step in the concrete
    statements below. *)
Definition evaluated_inputs : list (Q * Z) :=
  map (fun value => (1%Q, value))
      [0; -1; -2; 3; -5; 125; -125; 199; 200; -200; 300; -300; -325; -400;
       515; 25536; 32768; -32768; -2147483648]
  ++ map (fun value => ((1 # 2)%Q, value)) [7; -7; -125; 725]
  ++ [(2%Q, 1073741824)].

(** ** The Arduino runtime *)

Inductive Level : Type := LOW | HIGH.
Inductive PinMode : Type := INPUT | OUTPUT.
Inductive BitOrder : Type := LSBFIRST | MSBFIRST.
Inductive DataMode : Type := SPI_MODE0 | SPI_MODE1 | SPI_MODE2 | SPI_MODE3.

Record SPISettings : Type := mkSPISettings {
  clock : Z;
  bitOrder : BitOrder;
  dataMode : DataMode
}.

(** What the runtime was asked to do, in program order. *)
Inductive Event : Type :=
| EvBegin (s : SPISettings)
| EvEnd
| EvWrite (pin : Z) (l : Level)
| EvPinMode (pin : Z) (m : PinMode)
| EvTransfer (mosi miso : Z)
| EvDelay (us : Z).

(** The device at the far end of the bus.  It sees the level of its select
    line and exchanges one byte per transfer. *)
Class SpiSlave (D : Type) : Type := {
  on_select : Level -> D -> D;
  on_transfer : Z -> D -> Z * D
}.

Record World (D : Type) : Type := mkWorld {
  level : Z -> Level;
  direction : Z -> PinMode;
  wired : Z;                (* the pin the slave's select line hangs on *)
  slave : D;
  log : list Event
}.
Arguments mkWorld {D}.
Arguments level {D}.
Arguments direction {D}.
Arguments wired {D}.
Arguments slave {D}.
Arguments log {D}.

Definition M (D A : Type) : Type := World D -> A * World D.

Definition ret {D A : Type} (a : A) : M D A := fun w => (a, w).

Definition bind {D A B : Type} (m : M D A) (k : A -> M D B) : M D B :=
  fun w => let r := m w in k (fst r) (snd r).

Declare Scope io_scope.
Delimit Scope io_scope with io.
Notation "x <- m ;; k" := (bind m (fun x => k))
  (at level 61, m at next level, right associativity) : io_scope.
Notation "m ;; k" := (bind m (fun _ => k))
  (at level 61, right associativity) : io_scope.
Local Open Scope io_scope.

Definition update {A : Type} (f : Z -> A) (k : Z) (v : A) : Z -> A :=
  fun k' => if k' =? k then v else f k'.

Section Runtime.
Context {D : Type} `{SpiSlave D}.

Definition record (e : Event) (w : World D) : World D :=
  mkWorld (level w) (direction w) (wired w) (slave w) (log w ++ [e]).

Definition digitalWrite (pin : Z) (l : Level) : M D unit :=
  fun w =>
    let d := if pin =? wired w then on_select l (slave w) else slave w in
    (tt, record (EvWrite pin l)
           (mkWorld (update (level w) pin l) (direction w) (wired w) d (log w))).

Definition pinMode (pin : Z) (m : PinMode) : M D unit :=
  fun w =>
    (tt, record (EvPinMode pin m)
           (mkWorld (level w) (update (direction w) pin m) (wired w) (slave w) (log w))).

Definition delayMicroseconds (us : Z) : M D unit :=
  fun w => (tt, record (EvDelay us) w).
End Runtime.

Module SPI.
Section Bus.
Context {D : Type} `{SpiSlave D}.

Definition beginTransaction (s : SPISettings) : M D unit :=
  fun w => (tt, record (EvBegin s) w).

Definition endTransaction : M D unit :=
  fun w => (tt, record EvEnd w).

(** One byte out, one byte in: both are [uint8_t]. *)
Definition transfer (data : Z) : M D Z :=
  fun w =>
    let r := on_transfer (u8 data) (slave w) in
    (u8 (fst r), record (EvTransfer (u8 data) (u8 (fst r)))
                   (mkWorld (level w) (direction w) (wired w) (snd r) (log w))).
End Bus.
End SPI.

(** ** The driver's operations *)

Definition spiSettings : SPISettings := mkSPISettings 4000000 MSBFIRST SPI_MODE0.

Section Driver.
Context {D : Type} `{SpiSlave D}.

Definition LS7366R_new (slaveSelectPin : Z) (mode : CounterMode)
    (multiplier : Q) (range : Z) (reverse : bool) : M D LS7366R :=
  digitalWrite slaveSelectPin HIGH ;;
  pinMode slaveSelectPin OUTPUT ;;
  ret (mkLS7366R slaveSelectPin mode multiplier range reverse).

Definition Initialize (self : LS7366R) : M D unit :=
  SPI.beginTransaction spiSettings ;;
  digitalWrite (ss self) LOW ;;
  (* Write to MDR0 *)
  SPI.transfer 0x88 ;;
  (* Quadrature 1x, free-running count, index ignored, asynchronous index *)
  SPI.transfer 0x01 ;;
  digitalWrite (ss self) HIGH ;;
  delayMicroseconds 1 ;;
  digitalWrite (ss self) LOW ;;
  (* Write to MDR1 *)
  SPI.transfer 0x90 ;;
  SPI.transfer (CounterMode_code (mode self)) ;;
  digitalWrite (ss self) HIGH ;;
  delayMicroseconds 1 ;;
  SPI.endTransaction.

Definition Read16 (self : LS7366R) : M D Z :=
  let retval := 0 in
  SPI.beginTransaction spiSettings ;;
  digitalWrite (ss self) LOW ;;
  SPI.transfer 0x60 ;;                      (* Request count *)
  msb <- SPI.transfer 0x00 ;;
  let retval := s16 (retval + msb) in
  let retval := s16 (Z.shiftl retval 8) in
  lsb <- SPI.transfer 0x00 ;;
  let retval := s16 (retval + lsb) in
  digitalWrite (ss self) HIGH ;;
  SPI.endTransaction ;;
  delayMicroseconds 1 ;;
  ret (s16 (if reverse self then - retval else retval)).

Definition Read32 (self : LS7366R) : M D Z :=
  let retval := 0 in
  SPI.beginTransaction spiSettings ;;
  digitalWrite (ss self) LOW ;;
  SPI.transfer 0x60 ;;                      (* Request count *)
  b <- SPI.transfer 0x00 ;;                 (* MSB *)
  let retval := s32 (retval + b) in
  let retval := s32 (Z.shiftl retval 8) in
  b <- SPI.transfer 0x00 ;;
  let retval := s32 (retval + b) in
  let retval := s32 (Z.shiftl retval 8) in
  b <- SPI.transfer 0x00 ;;
  let retval := s32 (retval + b) in
  let retval := s32 (Z.shiftl retval 8) in
  b <- SPI.transfer 0x00 ;;                 (* LSB *)
  let retval := s32 (retval + b) in
  digitalWrite (ss self) HIGH ;;
  SPI.endTransaction ;;
  delayMicroseconds 1 ;;
  ret (if reverse self then s32 (- retval) else retval).

Definition Read (self : LS7366R) : M D (result Z) :=
  if CounterMode_eqb (mode self) BITS_32 then
    v <- Read32 self ;; ret (Format self v)
  else if CounterMode_eqb (mode self) BITS_16 then
    v <- Read16 self ;; ret (Format self v)
  else ret (Ok 0).

Definition Zero (self : LS7366R) : M D unit :=
  SPI.beginTransaction spiSettings ;;
  digitalWrite (ss self) LOW ;;
  SPI.transfer 0x98 ;;                      (* Write to DTR *)
  SPI.transfer 0x00 ;;                      (* MSB *)
  SPI.transfer 0x00 ;;
  SPI.transfer 0x00 ;;
  SPI.transfer 0x00 ;;                      (* LSB *)
  digitalWrite (ss self) HIGH ;;
  delayMicroseconds 1 ;;
  digitalWrite (ss self) LOW ;;
  SPI.transfer 0xE0 ;;                      (* load the counter *)
  digitalWrite (ss self) HIGH ;;
  SPI.endTransaction ;;
  delayMicroseconds 1.
End Driver.

(** ** Two devices *)

(** A line that replays a fixed sequence of bytes, one per transfer, and
    reads as zero once the sequence is used up. *)
Definition Replay : Type := list Z.

#[export] Instance Replay_slave : SpiSlave Replay := {
  on_select := fun _ d => d;
  on_transfer := fun _ d =>
    match d with
    | [] => (0, [])
    | b :: rest => (b, rest)
    end
}.

(** The same world with another device state at the end of the bus. *)
Definition plug {D E : Type} (w : World D) (d : E) : World E :=
  mkWorld (level w) (direction w) (wired w) d (log w).

(** Modelled from the spec: the LS7366R itself is hardware at the far end of
    the bus and not part of the source tree.  The device follows the wire
    protocol table of the spec: [0x88] and [0x90] write one byte to MDR0 and
    MDR1, [0x98] writes the data register DTR, [0xE0] loads the counter from
    DTR, [0x60] sends back the count, most significant byte first, 2 or 4
    bytes as the width code in MDR1 says.  A command starts when the select
    line falls and ends when it rises. *)
Module Chip.

Inductive Register : Type := MDR0 | MDR1 | DTR.

(** Where the device stands within the command of the current select
    scope. *)
Inductive Phase : Type :=
| Released                                   (* select line high *)
| AwaitOpcode                                (* selected, nothing received *)
| Writing (r : Register) (acc : Z) (todo : nat)
| Sending (bytes : list Z)
| Finished.

Record State : Type := mkState {
  mdr0 : Z;
  mdr1 : Z;
  dtr : Z;
  cntr : Z;
  phase : Phase
}.

(** Bytes per count, from the width code held in MDR1: 4 for code 0,
    2 for code 2 (and 3 and 1 for the codes the header leaves commented
    out). *)
Definition width (s : State) : nat := Z.to_nat (4 - mdr1 s mod 4).

(** The [n] low bytes of [x], most significant first. *)
Fixpoint be_bytes (n : nat) (x : Z) : list Z :=
  match n with
  | O => []
  | S n' => (x / 256 ^ Z.of_nat n') mod 256 :: be_bytes n' x
  end.

Definition store (r : Register) (v : Z) (s : State) : State :=
  match r with
  | MDR0 => mkState v (mdr1 s) (dtr s) (cntr s) Finished
  | MDR1 => mkState (mdr0 s) v (dtr s) (cntr s) Finished
  | DTR => mkState (mdr0 s) (mdr1 s) v (cntr s) Finished
  end.

Definition enter (p : Phase) (s : State) : State :=
  mkState (mdr0 s) (mdr1 s) (dtr s) (cntr s) p.

Definition select (l : Level) (s : State) : State :=
  match l with
  | HIGH => enter Released s
  | LOW =>
    match phase s with
    | Released => enter AwaitOpcode s
    | _ => s
    end
  end.

(** Modelled from the spec: the opcodes of the wire protocol table. *)
Definition opcode (op : Z) (s : State) : State :=
  if op =? 0x88 then enter (Writing MDR0 0 1) s
  else if op =? 0x90 then enter (Writing MDR1 0 1) s
  else if op =? 0x98 then enter (Writing DTR 0 (width s)) s
  else if op =? 0x60 then enter (Sending (be_bytes (width s) (cntr s))) s
  else if op =? 0xE0 then mkState (mdr0 s) (mdr1 s) (dtr s) (dtr s) Finished
  else enter Finished s.

(** Modelled from the spec: one byte exchanged with the device.  A write
    takes effect once all the bytes of the register have arrived; a read
    sends the bytes latched when the opcode arrived. *)
Definition exchange (mosi : Z) (s : State) : Z * State :=
  match phase s with
  | Released => (0, s)
  | AwaitOpcode => (0, opcode mosi s)
  | Writing r acc todo =>
    match todo with
    | O => (0, enter Finished s)
    | S O => (0, store r (acc * 256 + mosi) s)
    | S todo' => (0, enter (Writing r (acc * 256 + mosi) todo') s)
    end
  | Sending [] => (0, enter Finished s)
  | Sending (b :: rest) => (b, enter (Sending rest) s)
  | Finished => (0, s)
  end.

(** Encoder movement: the counter advances by [d] counts. *)
Definition count (d : Z) (s : State) : State :=
  mkState (mdr0 s) (mdr1 s) (dtr s) ((cntr s + d) mod 2 ^ (8 * Z.of_nat (width s))) (phase s).

End Chip.

#[export] Instance Chip_slave : SpiSlave Chip.State := {
  on_select := Chip.select;
  on_transfer := Chip.exchange
}.

(** Encoder movement seen from the program: nothing is logged. *)
Definition drift (d : Z) (w : World Chip.State) : World Chip.State :=
  plug w (Chip.count d (slave w)).

(** ** Vocabulary of the properties *)

(** The value of a byte sequence, most significant byte first: shift the
    accumulator left by 8 and add the next byte. *)
Definition big_endian (bytes : list Z) : Z :=
  fold_left (fun acc b => Z.shiftl acc 8 + b) bytes 0.

(** The most negative count of each width. *)
Definition count_floor (md : CounterMode) : Z :=
  match md with
  | BITS_32 => INT32_MIN
  | BITS_16 => INT16_MIN
  end.

(** The width of each mode in bits. *)
Definition count_bits (md : CounterMode) : Z :=
  match md with
  | BITS_32 => 32
  | BITS_16 => 16
  end.

(** Reduction to a signed value of the mode's width. *)
Definition narrow (md : CounterMode) : Z -> Z :=
  match md with
  | BITS_32 => s32
  | BITS_16 => s16
  end.

(** The count as the reader of the channel's width returns it. *)
Definition ReadCount {D : Type} `{SpiSlave D} (self : LS7366R) : M D Z :=
  match mode self with
  | BITS_32 => Read32 self
  | BITS_16 => Read16 self
  end.

(** A bench set-up: every line high, the device on pin 53 as in
    [main.cpp], nothing logged yet. *)
Definition bench {D : Type} (d : D) : World D :=
  mkWorld (fun _ => HIGH) (fun _ => OUTPUT) 53 d [].

(** The select-line discipline, as an automaton over the log.  The bus is
    [Idle] outside a transaction, [Claimed] inside one with the select line
    high, and [Selected] while the line is low; [Selected true] once a byte
    has been exchanged under the current assertion. *)
Inductive Bus : Type :=
| Idle
| Claimed
| Selected (exchanged : bool).

Definition bus_step (cs : Z) (b : Bus) (e : Event) : option Bus :=
  match b, e with
  | Idle, EvBegin _ => Some Claimed
  | Idle, EvDelay _ => Some Idle
  | Claimed, EvWrite p LOW => if p =? cs then Some (Selected false) else None
  | Claimed, EvDelay _ => Some Claimed
  | Claimed, EvEnd => Some Idle
  | Selected _, EvTransfer _ _ => Some (Selected true)
  | Selected true, EvWrite p HIGH => if p =? cs then Some Claimed else None
  | _, _ => None
  end.

Fixpoint bus_run (cs : Z) (b : Bus) (t : list Event) : option Bus :=
  match t with
  | [] => Some b
  | e :: t' =>
    match bus_step cs b e with
    | Some b' => bus_run cs b' t'
    | None => None
    end
  end.

(** A trace that starts and ends with the bus idle. *)
Definition scoped (cs : Z) (t : list Event) : bool :=
  match bus_run cs Idle t with
  | Some Idle => true
  | _ => false
  end.

(** An operation keeps the discipline on line [cs] when, from any world, what
    it adds to the log is a scoped trace and the line is high afterwards. *)
Definition disciplined {D A : Type} (cs : Z) (op : M D A) : Prop :=
  forall w : World D,
    exists t : list Event,
      log (snd (op w)) = log w ++ t /\
      scoped cs t = true /\
      level (snd (op w)) cs = HIGH.

(** ** Calls in sequence, channels side by side *)

(** The public operations, as a caller strings them together. *)
Inductive Call : Type :=
| CallInitialize
| CallRead
| CallZero.

Definition call {D : Type} `{SpiSlave D} (self : LS7366R) (c : Call) : M D unit :=
  match c with
  | CallInitialize => Initialize self
  | CallRead => Read self ;; ret tt
  | CallZero => Zero self
  end.

Fixpoint perform {D : Type} `{SpiSlave D} (plan : list (LS7366R * Call)) : M D unit :=
  match plan with
  | [] => ret tt
  | (self, c) :: rest => call self c ;; perform rest
  end.

(** The bus as several channels share it: [Free] outside a transaction,
    [Held] inside one with every select line high, [Asserted pin] while the
    line [pin], and no other, is low. *)
Inductive Shared : Type :=
| Free
| Held
| Asserted (pin : Z) (exchanged : bool).

Definition shared_step (b : Shared) (e : Event) : option Shared :=
  match b, e with
  | Free, EvBegin _ => Some Held
  | Free, EvDelay _ => Some Free
  | Held, EvWrite p LOW => Some (Asserted p false)
  | Held, EvDelay _ => Some Held
  | Held, EvEnd => Some Free
  | Asserted p _, EvTransfer _ _ => Some (Asserted p true)
  | Asserted p true, EvWrite q HIGH => if q =? p then Some Held else None
  | _, _ => None
  end.

Fixpoint shared_run (b : Shared) (t : list Event) : option Shared :=
  match t with
  | [] => Some b
  | e :: t' =>
    match shared_step b e with
    | Some b' => shared_run b' t'
    | None => None
    end
  end.

(** A trace in which at most one select line is low at any time, and none
    at either end or across the end of a transaction. *)
Definition exclusive (t : list Event) : bool :=
  match shared_run Free t with
  | Some Free => true
  | _ => false
  end.

(** ** The sketch: [main.cpp] *)

Definition SPI_MISO : Z := 50.
Definition SPI_MOSI : Z := 51.
Definition SPI_SCK : Z := 52.
Definition SPI_SS : Z := 53.

(** What the sketch does beside the pins and the bus. *)
Inductive Output : Type :=
| SerialBegin (baud : Z)
| SerialPrintln (value : result Z)
| DelayMs (ms : Z).

Record Board (D : Type) : Type := mkBoard {
  world : World D;
  console : list Output
}.
Arguments mkBoard {D}.
Arguments world {D}.
Arguments console {D}.

Section Sketch.
Context {D : Type} `{SpiSlave D}.

Definition on_world {A : Type} (m : M D A) (b : Board D) : A * Board D :=
  let r := m (world b) in (fst r, mkBoard (snd r) (console b)).

Definition emit (o : Output) (b : Board D) : Board D :=
  mkBoard (world b) (console b ++ [o]).

(** [LS7366R LeftEncoder = LS7366R(SPI_SS);] with the header's defaults. *)
Definition LeftEncoder : LS7366R := mkLS7366R SPI_SS BITS_32 1 0 false.

(** The constructor of the global object runs before [setup]. *)
Definition static_init (b : Board D) : Board D :=
  snd (on_world (LS7366R_new SPI_SS BITS_32 1 0 false) b).

Definition setup (b : Board D) : Board D :=
  let b := snd (on_world (pinMode SPI_MISO INPUT) b) in
  let b := snd (on_world (pinMode SPI_MOSI OUTPUT) b) in
  let b := snd (on_world (pinMode SPI_SCK OUTPUT) b) in
  let b := snd (on_world (pinMode SPI_SS OUTPUT) b) in
  let b := emit (SerialBegin 115200) b in
  snd (on_world (Initialize LeftEncoder) b).

Definition loop (b : Board D) : Board D :=
  let r := on_world (Read LeftEncoder) b in
  let b := emit (SerialPrintln (fst r)) (snd r) in
  emit (DelayMs 250) b.

(** [n] passes of [loop]. *)
Fixpoint loops (n : nat) (b : Board D) : Board D :=
  match n with
  | O => b
  | S n' => loops n' (loop b)
  end.
End Sketch.


(** * Properties *)

Module IntFacts.

Lemma signed_id (w x : Z) :
  0 < w -> - 2 ^ (w - 1) <= x < 2 ^ (w - 1) -> signed w x = x.
Proof.
  intros Hw Hx. unfold signed.
  assert (E : 2 ^ w = 2 * 2 ^ (w - 1)).
  { replace w with (Z.succ (w - 1)) at 1 by lia. apply Z.pow_succ_r. lia. }
  rewrite Z.mod_small; lia.
Qed.

Lemma signed_range (w x : Z) :
  0 < w -> - 2 ^ (w - 1) <= signed w x < 2 ^ (w - 1).
Proof.
  intros Hw. unfold signed.
  assert (E : 2 ^ w = 2 * 2 ^ (w - 1)).
  { replace w with (Z.succ (w - 1)) at 1 by lia. apply Z.pow_succ_r. lia. }
  assert (P : 0 < 2 ^ (w - 1)) by (apply Z.pow_pos_nonneg; lia).
  pose proof (Z.mod_pos_bound (x + 2 ^ (w - 1)) (2 ^ w)). lia.
Qed.

Lemma signed_mod (w x : Z) : 0 < w -> signed w x mod 2 ^ w = x mod 2 ^ w.
Proof.
  intros Hw. unfold signed.
  rewrite Zminus_mod_idemp_l. f_equal. lia.
Qed.

Lemma signed_congr (w x y : Z) :
  x mod 2 ^ w = y mod 2 ^ w -> signed w x = signed w y.
Proof.
  intros E. unfold signed.
  rewrite <- (Zplus_mod_idemp_l x), <- (Zplus_mod_idemp_l y), E. reflexivity.
Qed.

Lemma s32_id (x : Z) : is_int32 x -> s32 x = x.
Proof.
  unfold is_int32, INT32_MIN, INT32_MAX. intros Hx.
  apply signed_id; simpl in *; lia.
Qed.

Lemma s16_id (x : Z) : is_int16 x -> s16 x = x.
Proof.
  unfold is_int16, INT16_MIN, INT16_MAX. intros Hx.
  apply signed_id; simpl in *; lia.
Qed.

Lemma s32_is_int32 (x : Z) : is_int32 (s32 x).
Proof.
  pose proof (signed_range 32 x ltac:(lia)) as R.
  unfold is_int32, INT32_MIN, INT32_MAX, s32. simpl in *. lia.
Qed.

Lemma s16_is_int16 (x : Z) : is_int16 (s16 x).
Proof.
  pose proof (signed_range 16 x ltac:(lia)) as R.
  unfold is_int16, INT16_MIN, INT16_MAX, s16. simpl in *. lia.
Qed.

Lemma u32_id (x : Z) : is_uint32 x -> u32 x = x.
Proof.
  unfold is_uint32, UINT32_MAX, u32, unsigned. intros Hx.
  apply Z.mod_small. simpl in *. lia.
Qed.

Lemma u8_is_uint8 (x : Z) : is_uint8 (u8 x).
Proof.
  unfold is_uint8, u8, unsigned.
  pose proof (Z.mod_pos_bound x (2 ^ 8) ltac:(reflexivity)). simpl in *. lia.
Qed.

Lemma is_int32b_true (x : Z) : is_int32 x -> is_int32b x = true.
Proof.
  unfold is_int32, is_int32b. intros [L U].
  apply andb_true_intro. split; apply Z.leb_le; assumption.
Qed.

Lemma is_int32b_spec (x : Z) : is_int32b x = true -> is_int32 x.
Proof.
  unfold is_int32, is_int32b. intros E.
  apply andb_prop in E. destruct E as [L U].
  split; apply Z.leb_le; assumption.
Qed.

End IntFacts.
Import IntFacts.

(** ** Scaling *)

(** Whatever the scaling step returns is an [int32_t]. *)
Lemma scaled_is_int32 (m : Q) (v s : Z) : scaled m v = Ok s -> is_int32 s.
Proof.
  unfold scaled, to_int32.
  destruct (is_int32b _) eqn:E; [| discriminate].
  intros [= <-]. apply is_int32b_spec, E.
Qed.

(** ** Format *)

Lemma urem_pos (a b : Z) : 0 < b -> urem a b = Ok (a mod b).
Proof.
  intros Hb. unfold urem.
  destruct (Z.eqb_spec b 0); [lia | reflexivity].
Qed.

(** As a [uint32_t], [abs] of a negative [int32_t] is its magnitude, also at
    [INT32_MIN], where the negation wraps. *)
Lemma abs_unsigned (s : Z) : is_int32 s -> s < 0 -> u32 (abs s) = Z.abs s.
Proof.
  unfold is_int32, INT32_MIN, INT32_MAX. intros Hs Hneg.
  unfold abs. destruct (Z.gtb_spec s 0); [lia |].
  unfold u32, unsigned, s32.
  rewrite signed_mod by lia.
  rewrite Z.mod_small; simpl in *; lia.
Qed.

Section Wrapping.

Variables (pin : Z) (md : CounterMode) (m : Q) (R : Z) (rev : bool).
Variables (value s : Z).
Hypothesis scaled_ok : scaled m value = Ok s.
Hypothesis range_pos : 0 < R.

Local Notation "'self'" := (mkLS7366R pin md m R rev).

Lemma Format_wrap_nonneg : 0 <= s -> Format self value = Ok (s mod R).
Proof.
  intros Hs. pose proof (scaled_is_int32 _ _ _ scaled_ok) as I.
  unfold is_int32, INT32_MIN, INT32_MAX in I.
  unfold Format. cbn [multiplier range]. rewrite scaled_ok. cbn [result_bind].
  destruct (Z.leb_spec R 0); [lia |].
  destruct (Z.geb_spec s 0); [| lia].
  rewrite u32_id by (unfold is_uint32, UINT32_MAX; simpl in *; lia).
  rewrite urem_pos by assumption. cbn [result_bind].
  pose proof (Z.mod_pos_bound s R range_pos) as B.
  pose proof (Z.mod_le s R Hs range_pos) as L.
  rewrite s32_id; [reflexivity |].
  unfold is_int32, INT32_MIN, INT32_MAX. simpl in *. lia.
Qed.

(** The negative branch before the conversion to the return type. *)
Lemma Format_wrap_neg_raw :
  s < 0 -> Format self value = Ok (s32 (u32 (R - Z.abs s mod R))).
Proof.
  intros Hs. pose proof (scaled_is_int32 _ _ _ scaled_ok) as I.
  unfold Format. cbn [multiplier range]. rewrite scaled_ok. cbn [result_bind].
  destruct (Z.leb_spec R 0); [lia |].
  destruct (Z.geb_spec s 0); [lia |].
  rewrite abs_unsigned by assumption.
  rewrite urem_pos by assumption. reflexivity.
Qed.

(** The conversion is harmless as long as the difference fits. *)
Lemma Format_wrap_neg :
  s < 0 ->
  R <= UINT32_MAX ->
  R - Z.abs s mod R <= INT32_MAX ->
  Format self value = Ok (R - Z.abs s mod R).
Proof.
  intros Hs HR Hfit. rewrite Format_wrap_neg_raw by assumption.
  pose proof (Z.mod_pos_bound (Z.abs s) R range_pos) as B.
  unfold INT32_MAX in Hfit. unfold UINT32_MAX in HR.
  rewrite u32_id by (unfold is_uint32, UINT32_MAX; lia).
  rewrite s32_id; [reflexivity |].
  unfold is_int32, INT32_MIN, INT32_MAX. lia.
Qed.

End Wrapping.

(** Where the wrap lands, for any multiplier: within [0, R], and on [R]
    itself exactly when the scaled value is a negative multiple of [R]. *)
Lemma Format_wrap_bounds (pin : Z) (md : CounterMode) (m : Q) (rev : bool) (R v s : Z) :
  scaled m v = Ok s ->
  0 < R <= INT32_MAX ->
  exists x,
    Format (mkLS7366R pin md m R rev) v = Ok x /\
    0 <= x <= R /\
    (x = R <-> s < 0 /\ Z.abs s mod R = 0).
Proof.
  intros Hs [Rpos Rmax].
  destruct (Z_lt_ge_dec s 0) as [Neg | Pos].
  - exists (R - Z.abs s mod R).
    pose proof (Z.mod_pos_bound (Z.abs s) R Rpos) as B.
    unfold INT32_MAX in Rmax.
    split; [apply Format_wrap_neg; unfold UINT32_MAX, INT32_MAX; (assumption || lia) |].
    split; [lia |]. split; [intros E; split; lia | intros [_ E]; lia].
  - exists (s mod R).
    pose proof (Z.mod_pos_bound s R Rpos) as B.
    split; [apply Format_wrap_nonneg; [assumption | assumption | lia] |].
    split; [lia |]. split; [intros E; lia | intros [N _]; lia].
Qed.

(** The remainder is never taken by zero, whatever the range. *)
Lemma Format_no_division_by_zero (self : LS7366R) (value : Z) :
  Format self value <> Fault DivideByZero.
Proof.
  unfold Format, scaled, to_int32.
  destruct (is_int32b _); cbn [result_bind]; [| discriminate].
  destruct (Z.leb_spec (range self) 0); [discriminate |].
  unfold urem. destruct (Z.eqb_spec (range self) 0); [lia |].
  destruct (_ >=? 0); cbn [result_bind]; discriminate.
Qed.

(** Whatever [Format] returns is an [int32_t]. *)
Lemma Format_is_int32 (self : LS7366R) (v x : Z) :
  Format self v = Ok x -> is_int32 x.
Proof.
  unfold Format.
  destruct (scaled (multiplier self) v) as [s | f] eqn:Hs; cbn [result_bind];
    [| discriminate].
  destruct (range self <=? 0).
  - intros [= <-]. exact (scaled_is_int32 _ _ _ Hs).
  - destruct (s >=? 0).
    + destruct (urem (u32 s) (range self)); cbn [result_bind];
        [intros [= <-]; apply s32_is_int32 | discriminate].
    + destruct (urem (u32 (abs s)) (range self)); cbn [result_bind];
        [intros [= <-]; apply s32_is_int32 | discriminate].
Qed.

(** C1 (counterexamples).  With scale factor 1, [Format (-200)] on a range of
    200 is 200, which is not below the range; and on a range of 2147483649,
    one more than an [int32_t] result can tell from its neighbours,
    [Format (-1)] is negative. *)
Lemma Format_range_escapes :
  (exists x, Format (mkLS7366R 53 BITS_32 1 200 false) (-200) = Ok x
             /\ ~ (0 <= x < 200)) /\
  (exists x, Format (mkLS7366R 53 BITS_32 1 2147483649 false) (-1) = Ok x
             /\ ~ (0 <= x < 2147483649)).
Proof.
  split.
  - exists 200. split; [reflexivity | lia].
  - exists (-2147483648). split; [reflexivity | lia].
Qed.

(** C1 (amended).  For every range [R] with [0 < R <= 2^31] and every
    input whose scaling step returns the [int32_t] value [s], whatever the
    multiplier, [Format] returns some [x] with [0 <= x < R], provided [s] is
    not a negative exact multiple of [R]. *)
Theorem Format_within_range
  (pin : Z) (md : CounterMode) (m : Q) (rev : bool) (R v s : Z) :
  0 < R <= 2 ^ 31 ->
  scaled m v = Ok s ->
  ~ (s < 0 /\ Z.abs s mod R = 0) ->
  exists x, Format (mkLS7366R pin md m R rev) v = Ok x /\ 0 <= x < R.
Proof.
  intros [Rpos Rmax] Hs Hmult.
  destruct (Z_lt_ge_dec s 0) as [Neg | Pos].
  - exists (R - Z.abs s mod R).
    pose proof (Z.mod_pos_bound (Z.abs s) R Rpos) as B.
    assert (NZ : Z.abs s mod R <> 0) by (intros E; apply Hmult; split; assumption).
    split; [| lia].
    apply Format_wrap_neg; unfold UINT32_MAX, INT32_MAX; (assumption || lia).
  - exists (s mod R). split.
    + apply Format_wrap_nonneg; [assumption | assumption | lia].
    + apply Z.mod_pos_bound. assumption.
Qed.

(** The bound with scale factor 1 at [v = -125] on a range of 200. *)
Lemma Format_within_range_witness :
  0 < 200 <= 2 ^ 31 /\
  scaled 1 (-125) = Ok (-125) /\
  ~ (-125 < 0 /\ Z.abs (-125) mod 200 = 0) /\
  exists x, Format (mkLS7366R 53 BITS_32 1 200 false) (-125) = Ok x /\ 0 <= x < 200.
Proof.
  assert (B : 0 < 200 <= 2 ^ 31) by lia.
  assert (S : scaled 1 (-125) = Ok (-125)) by reflexivity.
  assert (N : ~ (-125 < 0 /\ Z.abs (-125) mod 200 = 0)).
  { intros [_ E]. vm_compute in E. discriminate. }
  split; [exact B |].
  split; [exact S |].
  split; [exact N |].
  exact (Format_within_range 53 BITS_32 1 false 200 (-125) (-125) B S N).
Defined.

(** C2 (counterexample).  A range of 2147483648 is positive and
    -2147483648 is a negative exact multiple of it, but the [int32_t] result
    cannot hold the range: [Format] returns -2147483648. *)
Lemma Format_negative_multiple_overflow :
  0 < 2147483648 /\
  scaled 1 (-2147483648) = Ok (-2147483648) /\
  -2147483648 < 0 /\
  Z.abs (-2147483648) mod 2147483648 = 0 /\
  Format (mkLS7366R 53 BITS_32 1 2147483648 false) (-2147483648) = Ok (-2147483648) /\
  Format (mkLS7366R 53 BITS_32 1 2147483648 false) (-2147483648) <> Ok 2147483648.
Proof.
  repeat split; try reflexivity. discriminate.
Qed.

(** C2 (amended).  For every range [R] with [0 < R <= INT32_MAX] and every
    scaled value that is a negative exact multiple of [R], [Format] returns
    [R], not 0; in particular with range 200 and scale factor 1,
    [Format (-200) = 200]. *)
Theorem Format_negative_multiple :
  (forall (pin : Z) (md : CounterMode) (m : Q) (rev : bool) (R v s : Z),
      0 < R <= INT32_MAX ->
      scaled m v = Ok s ->
      s < 0 ->
      Z.abs s mod R = 0 ->
      Format (mkLS7366R pin md m R rev) v = Ok R /\
      Format (mkLS7366R pin md m R rev) v <> Ok 0) /\
  (forall (pin : Z) (md : CounterMode) (rev : bool),
      Format (mkLS7366R pin md 1 200 rev) (-200) = Ok 200).
Proof.
  split.
  - intros pin md m rev R v s [Rpos Rmax] Hs Hneg Hmul.
    assert (E : Format (mkLS7366R pin md m R rev) v = Ok R).
    { unfold INT32_MAX in Rmax.
      rewrite (Format_wrap_neg pin md m R rev v s)
        by (unfold UINT32_MAX, INT32_MAX; (assumption || lia)).
      rewrite Hmul. f_equal. lia. }
    split; [exact E |].
    rewrite E. intros [= Z0]. lia.
  - intros pin md rev. reflexivity.
Qed.

(** The boundary at [-400] on a range of 200. *)
Lemma Format_negative_multiple_witness :
  0 < 200 <= INT32_MAX /\
  scaled 1 (-400) = Ok (-400) /\
  -400 < 0 /\
  Z.abs (-400) mod 200 = 0 /\
  Format (mkLS7366R 53 BITS_32 1 200 false) (-400) = Ok 200 /\
  Format (mkLS7366R 53 BITS_32 1 200 false) (-400) <> Ok 0.
Proof.
  assert (B : 0 < 200 <= INT32_MAX) by (unfold INT32_MAX; simpl; lia).
  assert (S : scaled 1 (-400) = Ok (-400)) by reflexivity.
  assert (N : -400 < 0) by lia.
  assert (E : Z.abs (-400) mod 200 = 0) by reflexivity.
  split; [exact B |].
  split; [exact S |].
  split; [exact N |].
  split; [exact E |].
  exact (proj1 Format_negative_multiple 53 BITS_32 1%Q false 200 (-400) (-400) B S N E).
Defined.

(** C3 (counterexample).  On a range of 3000000000 the scaled value -1 is
    negative, and [range - (abs(scaled) mod range)] is 2999999999; [Format]
    returns that number reduced to an [int32_t], -1294967297. *)
Lemma Format_sign_correct_overflow :
  0 < 3000000000 /\
  scaled 1 (-1) = Ok (-1) /\
  -1 < 0 /\
  Format (mkLS7366R 53 BITS_32 1 3000000000 false) (-1) = Ok (-1294967297) /\
  Format (mkLS7366R 53 BITS_32 1 3000000000 false) (-1)
    <> Ok (3000000000 - Z.abs (-1) mod 3000000000).
Proof.
  repeat split; try reflexivity. discriminate.
Qed.

(** C3 (amended).  With a positive range [R], [Format] returns
    [scaled mod R] when the scaled value is not negative, and, when it is
    negative, [R - (abs(scaled) mod R)] as long as that number fits the
    [int32_t] result, as it does for every [R <= INT32_MAX]; with range 200
    and scale factor 1, [Format (-125) = 75] and [Format 125 = 125]. *)
Theorem Format_sign_correct :
  (forall (pin : Z) (md : CounterMode) (m : Q) (rev : bool) (R v s : Z),
      0 < R <= UINT32_MAX ->
      scaled m v = Ok s ->
      (0 <= s -> Format (mkLS7366R pin md m R rev) v = Ok (s mod R)) /\
      (s < 0 -> R - Z.abs s mod R <= INT32_MAX ->
       Format (mkLS7366R pin md m R rev) v = Ok (R - Z.abs s mod R)) /\
      (R <= INT32_MAX -> R - Z.abs s mod R <= INT32_MAX)) /\
  (forall (pin : Z) (md : CounterMode) (rev : bool),
      Format (mkLS7366R pin md 1 200 rev) (-125) = Ok 75 /\
      Format (mkLS7366R pin md 1 200 rev) 125 = Ok 125).
Proof.
  split.
  - intros pin md m rev R v s [Rpos Rmax] Hs. split; [| split].
    + intros Hpos. apply Format_wrap_nonneg; assumption.
    + intros Hneg Hfit. apply Format_wrap_neg; assumption.
    + intros Hfit. pose proof (Z.mod_pos_bound (Z.abs s) R Rpos). lia.
  - intros pin md rev. split; reflexivity.
Qed.

(** Both branches on a range of 360 with multiplier 0.5. *)
Lemma Format_sign_correct_witness :
  0 < 360 <= UINT32_MAX /\
  scaled (1 # 2) (-125) = Ok (-63) /\
  scaled (1 # 2) 725 = Ok 363 /\
  360 - Z.abs (-63) mod 360 <= INT32_MAX /\
  Format (mkLS7366R 53 BITS_32 (1 # 2) 360 false) (-125) = Ok (360 - Z.abs (-63) mod 360) /\
  Format (mkLS7366R 53 BITS_32 (1 # 2) 360 false) 725 = Ok (363 mod 360).
Proof.
  assert (P : 0 < 360 <= UINT32_MAX) by (unfold UINT32_MAX; lia).
  assert (S : scaled (1 # 2) (-125) = Ok (-63)) by reflexivity.
  assert (S' : scaled (1 # 2) 725 = Ok 363) by reflexivity.
  assert (N : -63 < 0) by lia.
  assert (N' : 0 <= 363) by lia.
  assert (B : 360 <= INT32_MAX) by (unfold INT32_MAX; lia).
  pose proof (proj1 Format_sign_correct 53 BITS_32 (1 # 2) false 360 (-125) (-63) P S)
    as [_ [Neg Fits]].
  pose proof (proj1 Format_sign_correct 53 BITS_32 (1 # 2) false 360 725 363 P S')
    as [Pos _].
  split; [exact P |].
  split; [exact S |].
  split; [exact S' |].
  split; [exact (Fits B) |].
  split; [exact (Neg N (Fits B)) | exact (Pos N')].
Defined.

(** C4 (counterexample).  With multiplier 2 and range 0 the count 2^30
    scales to 2^31, one more than an [int32_t] holds.  What [Format] returns
    is an [int32_t], so it is not [round (multiplier * v)].  The count, the
    multiplier and the product are exact in binary32. *)
Lemma Format_unbounded_overflow :
  range (mkLS7366R 53 BITS_32 2 0 false) = 0 /\
  round (2 * inject_Z 1073741824) = 2147483648 /\
  ~ is_int32 2147483648 /\
  Format (mkLS7366R 53 BITS_32 2 0 false) 1073741824
    <> Ok (round (2 * inject_Z 1073741824)).
Proof.
  assert (N : ~ is_int32 2147483648).
  { unfold is_int32, INT32_MIN, INT32_MAX. lia. }
  split; [reflexivity |].
  split; [reflexivity |].
  split; [exact N |].
  intros E. apply Format_is_int32 in E. exact (N E).
Qed.

(** C4 (amended).  When the range is 0, [Format] returns the [int32_t] value
    that the scaling step [value = round (multiplier * value)] produced,
    unchanged, negative or not, for every value and every multiplier; the
    remainder is not computed, so there is no division by zero. *)
Theorem Format_unbounded (self : LS7366R) (v : Z) :
  range self = 0 ->
  (forall s, scaled (multiplier self) v = Ok s -> Format self v = Ok s) /\
  Format self v <> Fault DivideByZero.
Proof.
  intros R0.
  split; [| apply Format_no_division_by_zero].
  intros s Hs. unfold Format. rewrite R0, Hs. reflexivity.
Qed.

(** A negative result passed through: [Format (-7)] with multiplier 0.5. *)
Lemma Format_unbounded_witness :
  range (mkLS7366R 53 BITS_32 (1 # 2) 0 false) = 0 /\
  scaled (1 # 2) (-7) = Ok (-4) /\
  Format (mkLS7366R 53 BITS_32 (1 # 2) 0 false) (-7) = Ok (-4) /\
  Format (mkLS7366R 53 BITS_32 (1 # 2) 0 false) (-7) <> Fault DivideByZero.
Proof.
  assert (R0 : range (mkLS7366R 53 BITS_32 (1 # 2) 0 false) = 0) by reflexivity.
  assert (S : scaled (1 # 2) (-7) = Ok (-4)) by reflexivity.
  split; [exact R0 |].
  split; [exact S |].
  split; [exact (proj1 (Format_unbounded _ (-7) R0) (-4) S) |].
  exact (proj2 (Format_unbounded _ (-7) R0)).
Defined.

(** C8.  With multiplier 0.5 and range 0, [Format 7] is [round 3.5], which
    is 4: the half is rounded away from zero. *)
Theorem Format_half_scale (pin : Z) (md : CounterMode) (rev : bool) :
  Format (mkLS7366R pin md (1 # 2) 0 rev) 7 = Ok (round (7 # 2)) /\
  round (7 # 2) = 4 /\
  ((1 # 2) * inject_Z 7 == 7 # 2)%Q.
Proof.
  repeat split.
Qed.

(** The rule shows on halves whose neighbours differ in parity, and on
    negative halves. *)
Example round_halves :
  round (5 # 2) = 3 /\ round (-5 # 2) = -3 /\ round (-7 # 2) = -4 /\
  round (1 # 2) = 1 /\ round (-1 # 2) = -1 /\ round (49 # 100) = 0.
Proof. repeat split. Qed.

(** ** Byte assembly *)

Lemma signed_twos_complement (w u : Z) :
  0 < w -> 0 <= u < 2 ^ w -> signed w u = twos_complement w u.
Proof.
  intros Hw Hu. unfold signed, twos_complement.
  assert (E : 2 ^ w = 2 * 2 ^ (w - 1)).
  { replace w with (Z.succ (w - 1)) at 1 by lia. apply Z.pow_succ_r. lia. }
  assert (P : 0 < 2 ^ (w - 1)) by (apply Z.pow_pos_nonneg; lia).
  destruct (Z.testbit u (w - 1)) eqn:T.
  - apply Z.testbit_true in T; [| lia].
    assert (Q1 : u / 2 ^ (w - 1) = 1).
    { assert (u / 2 ^ (w - 1) < 2) by (apply Z.div_lt_upper_bound; lia).
      assert (0 <= u / 2 ^ (w - 1)) by (apply Z.div_pos; lia).
      destruct (Z.eq_dec (u / 2 ^ (w - 1)) 0) as [Z0 | NZ]; [| lia].
      rewrite Z0 in T. discriminate. }
    assert (G : 2 ^ (w - 1) <= u).
    { pose proof (Z.mul_div_le u (2 ^ (w - 1)) P). lia. }
    replace (u + 2 ^ (w - 1)) with ((u - 2 ^ (w - 1)) + 1 * 2 ^ w) by lia.
    rewrite Z.mod_add by lia. rewrite Z.mod_small; lia.
  - assert (L : u < 2 ^ (w - 1)).
    { destruct (Z_lt_ge_dec u (2 ^ (w - 1))) as [L | G]; [exact L | exfalso].
      assert (Q1 : u / 2 ^ (w - 1) = 1).
      { symmetry. apply (Z.div_unique u (2 ^ (w - 1)) 1 (u - 2 ^ (w - 1))); lia. }
      assert (T' : Z.testbit u (w - 1) = true).
      { apply Z.testbit_true; [lia |]. rewrite Q1. reflexivity. }
      congruence. }
    rewrite Z.mod_small; lia.
Qed.

Lemma signed_add_l (w x y : Z) : 0 < w -> signed w (signed w x + y) = signed w (x + y).
Proof.
  intros Hw. apply signed_congr.
  rewrite <- Zplus_mod_idemp_l, signed_mod, Zplus_mod_idemp_l by lia.
  reflexivity.
Qed.

Lemma big_endian_4 (b0 b1 b2 b3 : Z) :
  big_endian [b0; b1; b2; b3] = ((b0 * 256 + b1) * 256 + b2) * 256 + b3.
Proof.
  unfold big_endian. cbn [fold_left].
  rewrite !Z.shiftl_mul_pow2 by lia. change (2 ^ 8) with 256. lia.
Qed.

Lemma big_endian_2 (b0 b1 : Z) : big_endian [b0; b1] = b0 * 256 + b1.
Proof.
  unfold big_endian. cbn [fold_left].
  rewrite !Z.shiftl_mul_pow2 by lia. change (2 ^ 8) with 256. lia.
Qed.

(** The four shift-and-add steps of [Read32] on bytes. *)
Lemma assemble32 (b0 b1 b2 b3 : Z) :
  is_uint8 b0 -> is_uint8 b1 -> is_uint8 b2 -> is_uint8 b3 ->
  s32 (s32 (Z.shiftl (s32 (s32 (Z.shiftl (s32 (s32 (Z.shiftl (s32 (0 + b0)) 8) + b1)) 8) + b2)) 8) + b3)
  = twos_complement 32 (big_endian [b0; b1; b2; b3]).
Proof.
  unfold is_uint8. intros H0 H1 H2 H3.
  rewrite big_endian_4, !Z.shiftl_mul_pow2 by lia. change (2 ^ 8) with 256.
  assert (I : forall x, 0 <= x < 2 ^ 31 -> s32 x = x).
  { intros x Hx. apply s32_id. unfold is_int32, INT32_MIN, INT32_MAX. lia. }
  rewrite (I (0 + b0)) by lia.
  rewrite (I ((0 + b0) * 256)) by lia.
  rewrite (I ((0 + b0) * 256 + b1)) by lia.
  rewrite (I (((0 + b0) * 256 + b1) * 256)) by lia.
  rewrite (I (((0 + b0) * 256 + b1) * 256 + b2)) by lia.
  unfold s32. rewrite signed_add_l by lia.
  rewrite signed_twos_complement by lia.
  f_equal; lia.
Qed.

Lemma assemble16 (b0 b1 : Z) :
  is_uint8 b0 -> is_uint8 b1 ->
  s16 (s16 (s16 (Z.shiftl (s16 (0 + b0)) 8) + b1))
  = twos_complement 16 (big_endian [b0; b1]).
Proof.
  unfold is_uint8. intros H0 H1.
  rewrite big_endian_2, !Z.shiftl_mul_pow2 by lia. change (2 ^ 8) with 256.
  rewrite (s16_id (0 + b0)) by (unfold is_int16, INT16_MIN, INT16_MAX; lia).
  rewrite (s16_id (s16 _)) by apply s16_is_int16.
  unfold s16. rewrite signed_add_l by lia.
  rewrite signed_twos_complement by lia.
  f_equal; lia.
Qed.

(** ** Running the driver *)

(** Runs the driver's operations by computation, leaving the arithmetic and
    the device folded. *)
Ltac run :=
  cbv [ReadCount Read Read32 Read16 Initialize Zero LS7366R_new bind ret
       SPI.beginTransaction SPI.transfer SPI.endTransaction
       digitalWrite pinMode delayMicroseconds record plug
       fst snd slave wired level direction log reverse ss mode].

(** Lets the replaying line answer. *)
Ltac replay :=
  cbv [on_transfer on_select Replay_slave fst snd].

(** [Read] dispatches on the width. *)
Lemma Read_32 {D : Type} `{SpiSlave D} (pin : Z) (m : Q) (R : Z) (rev : bool) :
  Read (mkLS7366R pin BITS_32 m R rev)
  = (v <- Read32 (mkLS7366R pin BITS_32 m R rev) ;;
     ret (Format (mkLS7366R pin BITS_32 m R rev) v)).
Proof. reflexivity. Qed.

Lemma Read_16 {D : Type} `{SpiSlave D} (pin : Z) (m : Q) (R : Z) (rev : bool) :
  Read (mkLS7366R pin BITS_16 m R rev)
  = (v <- Read16 (mkLS7366R pin BITS_16 m R rev) ;;
     ret (Format (mkLS7366R pin BITS_16 m R rev) v)).
Proof. reflexivity. Qed.

(** C5.  A 32-bit read clocks in four bytes after opcode [0x60] and
    assembles them, most significant byte first, by shifting left by 8 and
    adding, into a signed 32-bit value; the bytes [0x00, 0x00, 0x01, 0x2C]
    give 300. *)
Theorem Read32_big_endian :
  (forall (w : World Replay) (pin : Z) (md : CounterMode) (m : Q) (R : Z)
          (r b0 b1 b2 b3 : Z) (rest : list Z),
      let out := Read32 (mkLS7366R pin md m R false)
                   (plug w (r :: b0 :: b1 :: b2 :: b3 :: rest)) in
      fst out = twos_complement 32 (big_endian [u8 b0; u8 b1; u8 b2; u8 b3]) /\
      is_int32 (fst out) /\
      log (snd out) =
        log w ++ [EvBegin spiSettings; EvWrite pin LOW;
                  EvTransfer 0x60 (u8 r);
                  EvTransfer 0 (u8 b0); EvTransfer 0 (u8 b1);
                  EvTransfer 0 (u8 b2); EvTransfer 0 (u8 b3);
                  EvWrite pin HIGH; EvEnd; EvDelay 1] /\
      slave (snd out) = rest) /\
  (forall (w : World Replay) (pin : Z) (md : CounterMode) (m : Q) (R : Z)
          (r : Z) (rest : list Z),
      fst (Read32 (mkLS7366R pin md m R false)
             (plug w (r :: 0x00 :: 0x00 :: 0x01 :: 0x2C :: rest))) = 300 /\
      fst (Read (mkLS7366R pin BITS_32 1 0 false)
             (plug w (r :: 0x00 :: 0x00 :: 0x01 :: 0x2C :: rest))) = Ok 300).
Proof.
  split.
  - intros [lv dir wp d lg] pin md m R r b0 b1 b2 b3 rest out. subst out.
    run. destruct (pin =? wp); replay.
    all: split; [apply assemble32; apply u8_is_uint8 |].
    all: split; [apply s32_is_int32 |].
    all: split; [rewrite <- !app_assoc; reflexivity | reflexivity].
  - intros [lv dir wp d lg] pin md m R r rest.
    rewrite Read_32. run. destruct (pin =? wp); replay; split; reflexivity.
Qed.

(** C10.  A 16-bit read assembles the two bytes clocked in after opcode
    [0x60] into the two's-complement reading of the pair: the value lies in
    [-32768, 32767], agrees with [msb * 256 + lsb] modulo [2^16], and is
    negative exactly when the first byte is [0x80] or more. *)
Theorem Read16_twos_complement
    (w : World Replay) (pin : Z) (md : CounterMode) (m : Q) (R : Z)
    (r msb lsb : Z) (rest : list Z) :
  let out := Read16 (mkLS7366R pin md m R false)
               (plug w (r :: msb :: lsb :: rest)) in
  fst out = twos_complement 16 (big_endian [u8 msb; u8 lsb]) /\
  is_int16 (fst out) /\
  fst out mod 2 ^ 16 = u8 msb * 256 + u8 lsb /\
  (fst out < 0 <-> 0x80 <= u8 msb) /\
  log (snd out) =
    log w ++ [EvBegin spiSettings; EvWrite pin LOW;
              EvTransfer 0x60 (u8 r);
              EvTransfer 0 (u8 msb); EvTransfer 0 (u8 lsb);
              EvWrite pin HIGH; EvEnd; EvDelay 1].
Proof.
  intros out.
  assert (E : fst out = twos_complement 16 (big_endian [u8 msb; u8 lsb])).
  { subst out. destruct w as [lv dir wp d lg].
    run. destruct (pin =? wp); replay; apply assemble16; apply u8_is_uint8. }
  assert (L : log (snd out) =
    log w ++ [EvBegin spiSettings; EvWrite pin LOW;
              EvTransfer 0x60 (u8 r);
              EvTransfer 0 (u8 msb); EvTransfer 0 (u8 lsb);
              EvWrite pin HIGH; EvEnd; EvDelay 1]).
  { subst out. destruct w as [lv dir wp d lg].
    run. destruct (pin =? wp); replay; rewrite <- !app_assoc; reflexivity. }
  pose proof (u8_is_uint8 msb) as Hm. pose proof (u8_is_uint8 lsb) as Hl.
  unfold is_uint8 in Hm, Hl.
  assert (P16 : 2 ^ 16 = 65536) by reflexivity.
  assert (P15 : 2 ^ 15 = 32768) by reflexivity.
  assert (U : 0 <= u8 msb * 256 + u8 lsb < 2 ^ 16) by lia.
  rewrite big_endian_2 in E.
  rewrite <- signed_twos_complement in E by lia.
  split; [rewrite big_endian_2, <- signed_twos_complement by lia; exact E |].
  split; [rewrite E; apply s16_is_int16 |].
  split; [rewrite E, signed_mod by lia; apply Z.mod_small; exact U |].
  split; [| exact L].
  rewrite E, signed_twos_complement by lia. unfold twos_complement.
  change (16 - 1) with 15.
  destruct (Z.testbit (u8 msb * 256 + u8 lsb) 15) eqn:T.
  - split; [intros _ | intros _; lia].
    apply Z.testbit_true in T; [| lia].
    destruct (Z_lt_ge_dec (u8 msb) 128) as [Lt | Ge]; [exfalso | lia].
    rewrite Z.div_small in T by lia. discriminate.
  - split; [intros Neg; lia | intros Ge; exfalso].
    assert (T' : Z.testbit (u8 msb * 256 + u8 lsb) 15 = true).
    { apply Z.testbit_true; [lia |].
      assert (Q1 : (u8 msb * 256 + u8 lsb) / 2 ^ 15 = 1).
      { symmetry.
        apply (Z.div_unique _ (2 ^ 15) 1 (u8 msb * 256 + u8 lsb - 2 ^ 15)); lia. }
      rewrite Q1. reflexivity. }
    congruence.
Qed.

(** ** Direction *)

Section Direction.

Context {D : Type} `{SpiSlave D}.
Variables (pin : Z) (md : CounterMode) (m : Q) (R : Z).

Local Notation "'plain'" := (mkLS7366R pin md m R false).
Local Notation "'inverted'" := (mkLS7366R pin md m R true).

(** The flag plays no part in the bus traffic. *)
Lemma Read32_same_traffic (w : World D) :
  snd (Read32 inverted w) = snd (Read32 plain w).
Proof. destruct w. run. reflexivity. Qed.

Lemma Read16_same_traffic (w : World D) :
  snd (Read16 inverted w) = snd (Read16 plain w).
Proof. destruct w. run. reflexivity. Qed.

Lemma Read32_is_int32 (w : World D) : is_int32 (fst (Read32 plain w)).
Proof. destruct w. run. apply s32_is_int32. Qed.

Lemma Read16_is_int16 (w : World D) : is_int16 (fst (Read16 plain w)).
Proof. destruct w. run. apply s16_is_int16. Qed.

(** The inverted reader negates the assembled count within its width. *)
Lemma Read32_negates (w : World D) :
  fst (Read32 inverted w) = s32 (- fst (Read32 plain w)).
Proof. destruct w. run. reflexivity. Qed.

Lemma Read16_negates (w : World D) :
  fst (Read16 inverted w) = s16 (- fst (Read16 plain w)).
Proof.
  destruct w. run.
  match goal with
  | |- s16 (- ?r) = s16 (- s16 ?r) => rewrite (s16_id r) by apply s16_is_int16
  end.
  reflexivity.
Qed.

Lemma Format_ignores_direction (v : Z) : Format inverted v = Format plain v.
Proof. reflexivity. Qed.

End Direction.

(** C6 (counterexample).  A 16-bit channel that clocks in [0x80, 0x00]
    assembles N = -32768.  The inverted channel returns [Format (-32768)]
    again, not [Format 32768]: the negation wraps within 16 bits. *)
Lemma Read_direction_floor :
  fst (ReadCount (mkLS7366R 53 BITS_16 1 0 false) (bench [0; 0x80; 0x00])) = -32768 /\
  fst (Read (mkLS7366R 53 BITS_16 1 0 false) (bench [0; 0x80; 0x00])) = Ok (-32768) /\
  fst (Read (mkLS7366R 53 BITS_16 1 0 true) (bench [0; 0x80; 0x00])) = Ok (-32768) /\
  Format (mkLS7366R 53 BITS_16 1 0 true) (- -32768) = Ok 32768 /\
  fst (Read (mkLS7366R 53 BITS_16 1 0 true) (bench [0; 0x80; 0x00]))
    <> Format (mkLS7366R 53 BITS_16 1 0 true)
         (- fst (ReadCount (mkLS7366R 53 BITS_16 1 0 false) (bench [0; 0x80; 0x00]))).
Proof.
  assert (N : fst (ReadCount (mkLS7366R 53 BITS_16 1 0 false) (bench [0; 0x80; 0x00])) = -32768)
    by (vm_compute; reflexivity).
  assert (I : fst (Read (mkLS7366R 53 BITS_16 1 0 true) (bench [0; 0x80; 0x00])) = Ok (-32768))
    by (vm_compute; reflexivity).
  split; [exact N |].
  split; [vm_compute; reflexivity |].
  split; [exact I |].
  split; [vm_compute; reflexivity |].
  rewrite N, I. vm_compute. discriminate.
Qed.

(** C6 (amended).  Two channels that differ only in the direction flag see
    the same bus traffic.  With N the count assembled from it, the plain
    channel's [Read] returns [Format N], and the inverted channel's [Read]
    returns [Format (-N)] whenever N is not the most negative count of the
    width; the negation comes after the assembly and before [Format]. *)
Theorem Read_direction {D : Type} `{SpiSlave D}
    (pin : Z) (md : CounterMode) (m : Q) (R : Z) (w : World D) :
  let plain := mkLS7366R pin md m R false in
  let inverted := mkLS7366R pin md m R true in
  let N := fst (ReadCount plain w) in
  fst (Read plain w) = Format plain N /\
  (N <> count_floor md -> fst (Read inverted w) = Format inverted (- N)) /\
  snd (Read inverted w) = snd (Read plain w).
Proof.
  intros plain inverted N. subst plain inverted N.
  destruct md.
  - split; [destruct w; run; reflexivity |].
    split; [| destruct w; run; reflexivity].
    intros NotFloor.
    pose proof (Read32_is_int32 pin BITS_32 m R w) as I.
    pose proof (Read32_negates pin BITS_32 m R w) as E.
    change (ReadCount (mkLS7366R pin BITS_32 m R false) w)
      with (Read32 (mkLS7366R pin BITS_32 m R false) w) in *.
    set (N := fst (Read32 (mkLS7366R pin BITS_32 m R false) w)) in *.
    transitivity (Format (mkLS7366R pin BITS_32 m R true)
                    (fst (Read32 (mkLS7366R pin BITS_32 m R true) w))).
    { destruct w; run; reflexivity. }
    rewrite E. f_equal. apply s32_id.
    unfold is_int32, count_floor, INT32_MIN, INT32_MAX in *. lia.
  - split; [destruct w; run; reflexivity |].
    split; [| destruct w; run; reflexivity].
    intros NotFloor.
    pose proof (Read16_is_int16 pin BITS_16 m R w) as I.
    pose proof (Read16_negates pin BITS_16 m R w) as E.
    change (ReadCount (mkLS7366R pin BITS_16 m R false) w)
      with (Read16 (mkLS7366R pin BITS_16 m R false) w) in *.
    set (N := fst (Read16 (mkLS7366R pin BITS_16 m R false) w)) in *.
    transitivity (Format (mkLS7366R pin BITS_16 m R true)
                    (fst (Read16 (mkLS7366R pin BITS_16 m R true) w))).
    { destruct w; run; reflexivity. }
    rewrite E. f_equal. apply s16_id.
    unfold is_int16, count_floor, INT16_MIN, INT16_MAX in *. lia.
Qed.

(** A 16-bit inverted channel that clocks in [0x01, 0x2C] reads -300. *)
Lemma Read_direction_witness :
  fst (ReadCount (mkLS7366R 53 BITS_16 1 0 false) (bench [0; 0x01; 0x2C]))
    <> count_floor BITS_16 /\
  fst (Read (mkLS7366R 53 BITS_16 1 0 true) (bench [0; 0x01; 0x2C])) = Ok (-300).
Proof.
  assert (N : fst (ReadCount (mkLS7366R 53 BITS_16 1 0 false) (bench [0; 0x01; 0x2C]))
              <> count_floor BITS_16)
    by (vm_compute; discriminate).
  split; [exact N |].
  exact (eq_trans
           (proj1 (proj2 (Read_direction 53 BITS_16 1%Q 0 (bench [0; 0x01; 0x2C]))) N)
           eq_refl).
Defined.

(** ** The select line *)

(** Reads the appended trace off the log and runs the automaton on it. *)
Ltac discipline :=
  eexists;
  split; [rewrite <- !app_assoc; cbn [app]; reflexivity |];
  split;
  [ cbv [scoped bus_run bus_step]; rewrite ?Z.eqb_refl; reflexivity
  | cbv [update]; rewrite ?Z.eqb_refl; reflexivity ].

(** C9.  [Initialize], [Read] and [Zero] lower the select line only inside
    the SPI transaction they open, raise it again after at least one
    transfer and before the transaction ends, and return with the line
    high. *)
Theorem select_line_discipline {D : Type} `{SpiSlave D} (self : LS7366R) :
  disciplined (ss self) (Initialize self) /\
  disciplined (ss self) (Read self) /\
  disciplined (ss self) (Zero self).
Proof.
  destruct self as [pin md m R rev].
  split; [| split]; intros [lv dir wp d lg].
  - run. discipline.
  - destruct md; [rewrite Read_32 | rewrite Read_16]; run; discipline.
  - run. discipline.
Qed.

(** ** Against the device *)

Section Frame.

Context {D : Type} `{SpiSlave D}.

(** No operation rewires the bus. *)
Lemma LS7366R_new_result (p : Z) (md : CounterMode) (m : Q) (R : Z) (rev : bool)
    (w : World D) :
  fst (LS7366R_new p md m R rev w) = mkLS7366R p md m R rev /\
  wired (snd (LS7366R_new p md m R rev w)) = wired w.
Proof. destruct w. run. split; reflexivity. Qed.

Lemma Initialize_wired (self : LS7366R) (w : World D) :
  wired (snd (Initialize self w)) = wired w.
Proof. destruct w, self. run. reflexivity. Qed.

Lemma Zero_wired (self : LS7366R) (w : World D) :
  wired (snd (Zero self w)) = wired w.
Proof. destruct w, self. run. reflexivity. Qed.

End Frame.

(** Lets the device answer once the channel is known to sit on its line. *)
Ltac chip := rewrite ?Z.eqb_refl; vm_compute.

Section OnChip.

Variable w : World Chip.State.

(** The constructor leaves the device released. *)
Lemma LS7366R_new_releases (md : CounterMode) (m : Q) (R : Z) (rev : bool) :
  slave (snd (LS7366R_new (wired w) md m R rev w))
  = Chip.enter Chip.Released (slave w).
Proof. destruct w as [lv dir wp [a b c d ph] lg]. run. chip. reflexivity. Qed.

Variable self : LS7366R.
Hypothesis attached : ss self = wired w.
Hypothesis released : Chip.phase (slave w) = Chip.Released.

(** [Initialize] programs both mode registers and nothing else. *)
Lemma Initialize_programs :
  slave (snd (Initialize self w))
  = Chip.mkState 1 (CounterMode_code (mode self))
      (Chip.dtr (slave w)) (Chip.cntr (slave w)) Chip.Released.
Proof.
  destruct w as [lv dir wp [a b c d ph] lg], self as [pin md m R rev].
  cbn in attached, released. subst pin ph.
  destruct md; run; chip; reflexivity.
Qed.

(** [Zero] clears the data register and the counter, in either width. *)
Lemma Zero_clears (md : CounterMode) :
  Chip.mdr1 (slave w) = CounterMode_code md ->
  slave (snd (Zero self w))
  = Chip.mkState (Chip.mdr0 (slave w)) (Chip.mdr1 (slave w)) 0 0 Chip.Released.
Proof.
  destruct w as [lv dir wp [a b c d ph] lg], self as [pin md' m R rev].
  cbn in attached, released. cbn. intros ->. subst pin ph.
  destruct md; run; chip; reflexivity.
Qed.

(** A 32-bit read of a cleared counter assembles 0. *)
Lemma Read32_cleared :
  Chip.mdr1 (slave w) = 0 -> Chip.cntr (slave w) = 0 ->
  fst (Read32 self w) = 0.
Proof.
  destruct w as [lv dir wp [a b c d ph] lg], self as [pin md m R rev].
  cbn in attached, released. cbn. intros -> ->. subst pin ph.
  destruct rev; run; chip; reflexivity.
Qed.

End OnChip.

(** C7.  A channel constructed on the device's select line with 32-bit
    width, scale factor 1, range 0 and no inversion: after [Initialize] and
    [Zero], with no count arriving in between, [Read] returns 0, whatever
    state the device and the pins were in before. *)
Theorem Zero_then_Read (w : World Chip.State) :
  fst ((self <- LS7366R_new (wired w) BITS_32 1 0 false ;;
        Initialize self ;;
        Zero self ;;
        Read self) w) = Ok 0.
Proof.
  cbv [bind].
  destruct (LS7366R_new_result (wired w) BITS_32 1 0 false w) as [Eself Wired1].
  pose proof (LS7366R_new_releases w BITS_32 1 0 false) as Slave1.
  rewrite Eself.
  set (self := mkLS7366R (wired w) BITS_32 1 0 false) in *.
  set (w1 := snd (LS7366R_new (wired w) BITS_32 1 0 false w)) in *.
  assert (A1 : ss self = wired w1) by (rewrite Wired1; reflexivity).
  assert (P1 : Chip.phase (slave w1) = Chip.Released) by (rewrite Slave1; reflexivity).
  pose proof (Initialize_programs w1 self A1 P1) as Slave2.
  pose proof (Initialize_wired self w1) as Wired2.
  set (w2 := snd (Initialize self w1)) in *.
  assert (A2 : ss self = wired w2) by (rewrite Wired2; exact A1).
  assert (P2 : Chip.phase (slave w2) = Chip.Released) by (rewrite Slave2; reflexivity).
  assert (M2 : Chip.mdr1 (slave w2) = CounterMode_code BITS_32) by (rewrite Slave2; reflexivity).
  pose proof (Zero_clears w2 self A2 P2 BITS_32 M2) as Slave3.
  pose proof (Zero_wired self w2) as Wired3.
  set (w3 := snd (Zero self w2)) in *.
  assert (A3 : ss self = wired w3) by (rewrite Wired3; exact A2).
  assert (P3 : Chip.phase (slave w3) = Chip.Released) by (rewrite Slave3; reflexivity).
  assert (M3 : Chip.mdr1 (slave w3) = 0) by (rewrite Slave3, M2; reflexivity).
  assert (C3 : Chip.cntr (slave w3) = 0) by (rewrite Slave3; reflexivity).
  pose proof (Read32_cleared w3 self A3 P3 M3 C3) as Count.
  unfold self at 1. rewrite Read_32. fold self.
  cbv [bind ret]. cbn [fst]. rewrite Count. reflexivity.
Qed.

(** What the round trip rests on: counts that arrive after [Zero] are read
    back, with their sign, and narrowed to 16 bits by a 16-bit channel. *)
Example Zero_drift_Read :
  fst ((self <- LS7366R_new 53 BITS_32 1 0 false ;;
        Initialize self ;; Zero self ;;
        (fun w => (tt, drift (-5) w)) ;;
        Read self) (bench (Chip.mkState 3 2 77 123456 (Chip.Sending [1; 2]))))
    = Ok (-5) /\
  fst ((self <- LS7366R_new 53 BITS_16 1 0 true ;;
        Initialize self ;; Zero self ;;
        (fun w => (tt, drift 40000 w)) ;;
        Read self) (bench (Chip.mkState 3 0 77 123456 Chip.AwaitOpcode)))
    = Ok 25536.
Proof. split; vm_compute; reflexivity. Qed.

(** The discipline is not vacuous: a transaction that ends with the line
    still low, or a transfer outside a selection, is not a scoped trace. *)
Example scoped_rejects :
  scoped 53 [EvBegin spiSettings; EvWrite 53 LOW; EvTransfer 0x60 0; EvEnd] = false /\
  scoped 53 [EvBegin spiSettings; EvTransfer 0x60 0; EvEnd] = false /\
  scoped 53 [EvBegin spiSettings; EvWrite 53 LOW; EvWrite 53 HIGH; EvEnd] = false /\
  scoped 53 [EvBegin spiSettings; EvWrite 53 LOW; EvTransfer 0x60 0;
             EvWrite 53 HIGH; EvEnd; EvDelay 1] = true.
Proof. repeat split. Qed.

(** * Beyond the claims *)

(** ** More about [Format] *)



(** X2.  On a range that fits the result, what [Format] returns is congruent
    to the scaled value modulo the range. *)
Theorem Format_congruent
    (pin : Z) (md : CounterMode) (m : Q) (rev : bool) (R v s x : Z) :
  0 < R <= INT32_MAX ->
  scaled m v = Ok s ->
  Format (mkLS7366R pin md m R rev) v = Ok x ->
  x mod R = s mod R.
Proof.
  intros [Rpos Rmax] Hs Hx. unfold INT32_MAX in Rmax.
  destruct (Z_lt_ge_dec s 0) as [Neg | Pos].
  - rewrite (Format_wrap_neg pin md m R rev v s) in Hx;
      try (unfold UINT32_MAX, INT32_MAX; (assumption || lia)).
    + injection Hx as <-.
      rewrite Z.abs_neq by lia.
      pose proof (Z.div_mod (- s) R ltac:(lia)) as E.
      replace (R - - s mod R) with (s + (- s / R + 1) * R) by lia.
      apply Z.mod_add. lia.
    + pose proof (Z.mod_pos_bound (Z.abs s) R Rpos). unfold INT32_MAX. lia.
  - rewrite (Format_wrap_nonneg pin md m R rev v s) in Hx by (assumption || lia).
    injection Hx as <-. apply Z.mod_mod. lia.
Qed.

Lemma Format_congruent_witness :
  0 < 200 <= INT32_MAX /\
  scaled 1 (-325) = Ok (-325) /\
  Format (mkLS7366R 53 BITS_32 1 200 false) (-325) = Ok 75 /\
  75 mod 200 = (-325) mod 200.
Proof.
  assert (B : 0 < 200 <= INT32_MAX) by (unfold INT32_MAX; lia).
  assert (S : scaled 1 (-325) = Ok (-325)) by reflexivity.
  assert (F : Format (mkLS7366R 53 BITS_32 1 200 false) (-325) = Ok 75) by reflexivity.
  split; [exact B |]. split; [exact S |]. split; [exact F |].
  exact (Format_congruent 53 BITS_32 1 false 200 (-325) (-325) 75 B S F).
Defined.

(** X3.  On a range that fits the result, [Format] returns the scaled
    value itself exactly when that value is already in [0, R). *)
Theorem Format_fixed_points
    (pin : Z) (md : CounterMode) (m : Q) (rev : bool) (R v s : Z) :
  0 < R <= INT32_MAX ->
  scaled m v = Ok s ->
  (Format (mkLS7366R pin md m R rev) v = Ok s <-> 0 <= s < R).
Proof.
  intros [Rpos Rmax] Hs. unfold INT32_MAX in Rmax.
  split.
  - intros E. destruct (Z_lt_ge_dec s 0) as [Neg | Pos].
    + pose proof (Z.mod_pos_bound (Z.abs s) R Rpos) as B.
      rewrite (Format_wrap_neg pin md m R rev v s) in E;
        try (unfold UINT32_MAX, INT32_MAX; (assumption || lia)).
      injection E as E. lia.
    + rewrite (Format_wrap_nonneg pin md m R rev v s) in E by (assumption || lia).
      injection E as E. pose proof (Z.mod_pos_bound s R Rpos). lia.
  - intros [L U].
    rewrite (Format_wrap_nonneg pin md m R rev v s) by (assumption || lia).
    rewrite Z.mod_small by lia. reflexivity.
Qed.

(** 199 stays on a range of 200; 200 itself does not. *)
Lemma Format_fixed_points_witness :
  0 < 200 <= INT32_MAX /\
  scaled 1 199 = Ok 199 /\
  scaled 1 200 = Ok 200 /\
  (Format (mkLS7366R 53 BITS_32 1 200 false) 199 = Ok 199 <-> 0 <= 199 < 200) /\
  (Format (mkLS7366R 53 BITS_32 1 200 false) 200 = Ok 200 <-> 0 <= 200 < 200).
Proof.
  assert (B : 0 < 200 <= INT32_MAX) by (unfold INT32_MAX; lia).
  assert (S : scaled 1 199 = Ok 199) by reflexivity.
  assert (S' : scaled 1 200 = Ok 200) by reflexivity.
  split; [exact B |]. split; [exact S |]. split; [exact S' |].
  split.
  - exact (Format_fixed_points 53 BITS_32 1 false 200 199 199 B S).
  - exact (Format_fixed_points 53 BITS_32 1 false 200 200 200 B S').
Defined.

(** X4.  On a range that fits the result, the readings of two values whose
    scaled values are opposite and not 0 add up to the range. *)
Theorem Format_mirror
    (pin : Z) (md : CounterMode) (m : Q) (rev : bool) (R v v' s : Z) :
  0 < R <= INT32_MAX ->
  scaled m v = Ok s ->
  scaled m v' = Ok (- s) ->
  s <> 0 ->
  exists x y,
    Format (mkLS7366R pin md m R rev) v = Ok x /\
    Format (mkLS7366R pin md m R rev) v' = Ok y /\
    x + y = R.
Proof.
  intros [Rpos Rmax] Hs Hs' NZ. unfold INT32_MAX in Rmax.
  pose proof (Z.mod_pos_bound (Z.abs s) R Rpos) as B.
  pose proof (Z.mod_pos_bound (Z.abs (- s)) R Rpos) as B'.
  destruct (Z_lt_ge_dec s 0) as [Neg | Pos].
  - exists (R - Z.abs s mod R), (- s mod R).
    rewrite (Format_wrap_neg pin md m R rev v s)
      by (unfold UINT32_MAX, INT32_MAX; (assumption || lia)).
    rewrite (Format_wrap_nonneg pin md m R rev v' (- s)) by (assumption || lia).
    rewrite Z.abs_neq by lia. repeat split. lia.
  - exists (s mod R), (R - Z.abs (- s) mod R).
    rewrite (Format_wrap_nonneg pin md m R rev v s) by (assumption || lia).
    rewrite (Format_wrap_neg pin md m R rev v' (- s))
      by (unfold UINT32_MAX, INT32_MAX; (assumption || lia)).
    rewrite Z.abs_neq, Z.opp_involutive by lia. repeat split. lia.
Qed.

(** 125 and -125 on a range of 200: 125 and 75. *)
Lemma Format_mirror_witness :
  0 < 200 <= INT32_MAX /\
  scaled 1 125 = Ok 125 /\
  scaled 1 (-125) = Ok (- 125) /\
  125 <> 0 /\
  exists x y,
    Format (mkLS7366R 53 BITS_32 1 200 false) 125 = Ok x /\
    Format (mkLS7366R 53 BITS_32 1 200 false) (-125) = Ok y /\
    x + y = 200.
Proof.
  assert (B : 0 < 200 <= INT32_MAX) by (unfold INT32_MAX; lia).
  assert (S : scaled 1 125 = Ok 125) by reflexivity.
  assert (S' : scaled 1 (-125) = Ok (- 125)) by reflexivity.
  assert (N : 125 <> 0) by lia.
  split; [exact B |]. split; [exact S |]. split; [exact S' |]. split; [exact N |].
  exact (Format_mirror 53 BITS_32 1 false 200 125 (-125) 125 B S S' N).
Defined.

(** X15.  The scaling step next to its binary32 computation, with the
    offset of [round] added in either width of [double].  At every input
    at which this development evaluates it, the two return the same.  With
    multiplier 1.0 the counts 16777217 and 33554433, which have no binary32
    representation, are scaled to 16777216 and 33554432. *)
Theorem scaling_in_binary32 (d : Binary32.Double) :
  Forall (fun p => Binary32.scaling d (fst p) (snd p) = scaled (fst p) (snd p))
         evaluated_inputs /\
  Binary32.scaling d 1 16777217 = Ok 16777216 /\
  Binary32.scaling d 1 33554433 = Ok 33554432 /\
  scaled 1 16777217 = Ok 16777217 /\
  scaled 1 33554433 = Ok 33554433.
Proof.
  destruct d; (split; [repeat constructor | repeat split]).
Qed.

(** ** More about the readers *)

Section Readers.

Context {D : Type} `{SpiSlave D}.




(** [Read] is [Format] after the reader of the channel's width. *)
Lemma Read_Format (self : LS7366R) (w : World D) :
  fst (Read self w) = Format self (fst (ReadCount self w)) /\
  snd (Read self w) = snd (ReadCount self w).
Proof.
  destruct self as [pin md m R rev]. unfold ReadCount. cbn [mode].
  destruct md; [rewrite Read_32 | rewrite Read_16]; split; reflexivity.
Qed.

End Readers.

(** X9.  The readers lose nothing of what they clock in: two reads that
    return the same count were fed the same bytes. *)
Theorem Read_keeps_every_bit
    (w w' : World Replay) (pin : Z) (md : CounterMode) (m : Q) (R : Z) :
  (forall (r a0 a1 a2 a3 r' b0 b1 b2 b3 : Z) (rest rest' : list Z),
      fst (Read32 (mkLS7366R pin md m R false) (plug w (r :: a0 :: a1 :: a2 :: a3 :: rest)))
      = fst (Read32 (mkLS7366R pin md m R false) (plug w' (r' :: b0 :: b1 :: b2 :: b3 :: rest'))) ->
      u8 a0 = u8 b0 /\ u8 a1 = u8 b1 /\ u8 a2 = u8 b2 /\ u8 a3 = u8 b3) /\
  (forall (r a0 a1 r' b0 b1 : Z) (rest rest' : list Z),
      fst (Read16 (mkLS7366R pin md m R false) (plug w (r :: a0 :: a1 :: rest)))
      = fst (Read16 (mkLS7366R pin md m R false) (plug w' (r' :: b0 :: b1 :: rest'))) ->
      u8 a0 = u8 b0 /\ u8 a1 = u8 b1).
Proof.
  destruct w as [lv dir wp d lg], w' as [lv' dir' wp' d' lg'].
  split.
  - intros r a0 a1 a2 a3 r' b0 b1 b2 b3 rest rest' E.
    assert (E' : twos_complement 32 (big_endian [u8 a0; u8 a1; u8 a2; u8 a3])
                 = twos_complement 32 (big_endian [u8 b0; u8 b1; u8 b2; u8 b3])).
    { rewrite <- !assemble32 by apply u8_is_uint8.
      revert E. run. destruct (pin =? wp), (pin =? wp'); replay; exact (fun e => e). }
    pose proof (u8_is_uint8 a0). pose proof (u8_is_uint8 a1).
    pose proof (u8_is_uint8 a2). pose proof (u8_is_uint8 a3).
    pose proof (u8_is_uint8 b0). pose proof (u8_is_uint8 b1).
    pose proof (u8_is_uint8 b2). pose proof (u8_is_uint8 b3).
    unfold is_uint8 in *.
    rewrite !big_endian_4 in E'.
    rewrite <- !signed_twos_complement in E' by lia.
    apply (f_equal (fun z => z mod 2 ^ 32)) in E'.
    rewrite !signed_mod in E' by lia.
    rewrite !Z.mod_small in E' by lia.
    lia.
  - intros r a0 a1 r' b0 b1 rest rest' E.
    assert (E' : twos_complement 16 (big_endian [u8 a0; u8 a1])
                 = twos_complement 16 (big_endian [u8 b0; u8 b1])).
    { rewrite <- !assemble16 by apply u8_is_uint8.
      revert E. run. destruct (pin =? wp), (pin =? wp'); replay; exact (fun e => e). }
    pose proof (u8_is_uint8 a0). pose proof (u8_is_uint8 a1).
    pose proof (u8_is_uint8 b0). pose proof (u8_is_uint8 b1).
    unfold is_uint8 in *.
    rewrite !big_endian_2 in E'.
    rewrite <- !signed_twos_complement in E' by lia.
    apply (f_equal (fun z => z mod 2 ^ 16)) in E'.
    rewrite !signed_mod in E' by lia.
    rewrite !Z.mod_small in E' by lia.
    lia.
Qed.

Lemma Read_keeps_every_bit_witness :
  fst (Read16 (mkLS7366R 53 BITS_16 1 0 false) (plug (bench ([] : Replay)) [7; 0x12; 0x34]))
  = fst (Read16 (mkLS7366R 53 BITS_16 1 0 false) (plug (bench ([] : Replay)) [9; 0x112; 0x34; 1])) /\
  u8 0x12 = u8 0x112 /\ u8 0x34 = u8 0x34.
Proof.
  assert (E : fst (Read16 (mkLS7366R 53 BITS_16 1 0 false) (plug (bench ([] : Replay)) [7; 0x12; 0x34]))
              = fst (Read16 (mkLS7366R 53 BITS_16 1 0 false)
                       (plug (bench ([] : Replay)) [9; 0x112; 0x34; 1])))
    by (vm_compute; reflexivity).
  split; [exact E |].
  exact (proj2 (Read_keeps_every_bit (bench ([] : Replay)) (bench ([] : Replay)) 53 BITS_16 1 0)
           7 0x12 0x34 9 0x112 0x34 [] [1] E).
Defined.

(** ** Calls in sequence *)

Lemma shared_run_app (t1 t2 : list Event) (b : Shared) :
  shared_run b (t1 ++ t2) =
  match shared_run b t1 with
  | Some b' => shared_run b' t2
  | None => None
  end.
Proof.
  revert b. induction t1 as [| e t1 IH]; intros b; cbn [app shared_run].
  - reflexivity.
  - destruct (shared_step b e); [apply IH | reflexivity].
Qed.

Ltac untouched :=
  intros p Hp; cbv [update];
  rewrite ?(proj2 (Z.eqb_neq _ _) Hp); reflexivity.

Section OneCall.

Context {D : Type} `{SpiSlave D}.

(** One call, seen from the shared bus. *)
Lemma call_effect (self : LS7366R) (c : Call) (w : World D) :
  exists t,
    log (snd (call self c w)) = log w ++ t /\
    shared_run Free t = Some Free /\
    level (snd (call self c w)) (ss self) = HIGH /\
    (forall p, p <> ss self -> level (snd (call self c w)) p = level w p).
Proof.
  destruct self as [pin md m R rev], w as [lv dir wp d lg].
  destruct c; cbv [call]; [| destruct md; [rewrite Read_32 | rewrite Read_16] |];
    run; eexists;
    (split; [rewrite <- !app_assoc; cbn [app]; reflexivity |]);
    (split; [cbv [shared_run shared_step]; rewrite ?Z.eqb_refl; reflexivity |]);
    (split; [cbv [update]; rewrite ?Z.eqb_refl; reflexivity | untouched]).
Qed.

Lemma perform_cons (self : LS7366R) (c : Call) (plan : list (LS7366R * Call)) (w : World D) :
  snd (perform ((self, c) :: plan) w) = snd (perform plan (snd (call self c w))).
Proof. reflexivity. Qed.

End OneCall.

(** X10.  Any sequence of calls, on any channels that share the bus, keeps
    the bus exclusive: at most one select line is low at a time, only inside
    a transaction and with at least one transfer under it; afterwards the
    line of every channel that was called is high, and so is every line that
    was high before. *)
Theorem shared_bus_exclusive {D : Type} `{SpiSlave D}
    (plan : list (LS7366R * Call)) (w : World D) :
  exists t,
    log (snd (perform plan w)) = log w ++ t /\
    exclusive t = true /\
    (forall self c, In (self, c) plan -> level (snd (perform plan w)) (ss self) = HIGH) /\
    (forall p, level w p = HIGH -> level (snd (perform plan w)) p = HIGH).
Proof.
  unfold exclusive.
  assert (G : exists t,
    log (snd (perform plan w)) = log w ++ t /\
    shared_run Free t = Some Free /\
    (forall self c, In (self, c) plan -> level (snd (perform plan w)) (ss self) = HIGH) /\
    (forall p, level w p = HIGH -> level (snd (perform plan w)) p = HIGH)).
  { revert w. induction plan as [| [self c] plan IH]; intros w.
    - exists []. cbn [perform]. cbv [ret snd].
      split; [symmetry; apply app_nil_r |].
      split; [reflexivity |].
      split; [intros self c [] | intros p Hp; exact Hp].
    - rewrite perform_cons.
      destruct (call_effect self c w) as (t1 & L1 & S1 & High1 & Frame1).
      destruct (IH (snd (call self c w))) as (t2 & L2 & S2 & High2 & Keep2).
      exists (t1 ++ t2).
      split; [rewrite L2, L1, app_assoc; reflexivity |].
      split; [rewrite shared_run_app, S1; exact S2 |].
      split.
      + intros self' c' [E | I].
        * injection E as <- <-. apply Keep2. exact High1.
        * apply (High2 self' c'). exact I.
      + intros p Hp. apply Keep2.
        destruct (Z.eq_dec p (ss self)) as [-> | Ne]; [exact High1 |].
        rewrite Frame1 by exact Ne. exact Hp. }
  destruct G as (t & L & S & High & Keep).
  exists t. rewrite S. repeat split; assumption.
Qed.

Lemma shared_bus_exclusive_witness :
  level (bench [1; 2; 3] : World Replay) 10 = HIGH /\
  level (snd (perform [(mkLS7366R 53 BITS_16 1 0 false, CallRead);
                       (mkLS7366R 49 BITS_32 1 0 true, CallZero)]
                (bench [1; 2; 3] : World Replay))) 10 = HIGH /\
  level (snd (perform [(mkLS7366R 53 BITS_16 1 0 false, CallRead);
                       (mkLS7366R 49 BITS_32 1 0 true, CallZero)]
                (bench [1; 2; 3] : World Replay))) 49 = HIGH.
Proof.
  destruct (shared_bus_exclusive
              [(mkLS7366R 53 BITS_16 1 0 false, CallRead);
               (mkLS7366R 49 BITS_32 1 0 true, CallZero)]
              (bench [1; 2; 3] : World Replay)) as (t & _ & _ & High & Keep).
  split; [reflexivity |].
  split; [exact (Keep 10 eq_refl) |].
  exact (High (mkLS7366R 49 BITS_32 1 0 true) CallZero (or_intror (or_introl eq_refl))).
Defined.

(** X11.  The three operations drive no pin but the channel's select line,
    configure no pin and leave the wiring alone. *)
Theorem operations_frame {D : Type} `{SpiSlave D}
    (self : LS7366R) (c : Call) (w : World D) :
  (forall p, p <> ss self -> level (snd (call self c w)) p = level w p) /\
  direction (snd (call self c w)) = direction w /\
  wired (snd (call self c w)) = wired w.
Proof.
  destruct self as [pin md m R rev], w as [lv dir wp d lg].
  destruct c; cbv [call]; [| destruct md; [rewrite Read_32 | rewrite Read_16] |];
    run; (split; [untouched | split; reflexivity]).
Qed.

Lemma operations_frame_witness :
  10 <> ss (mkLS7366R 53 BITS_32 1 0 false) /\
  level (snd (call (mkLS7366R 53 BITS_32 1 0 false) CallZero
                (mkWorld (fun _ => LOW) (fun _ => INPUT) 53 ([] : Replay) []))) 10 = LOW.
Proof.
  assert (N : 10 <> ss (mkLS7366R 53 BITS_32 1 0 false)) by (cbn; lia).
  split; [exact N |].
  exact (proj1 (operations_frame (mkLS7366R 53 BITS_32 1 0 false) CallZero
                  (mkWorld (fun _ => LOW) (fun _ => INPUT) 53 ([] : Replay) [])) 10 N).
Defined.

(** Two lines low at once, or a line left low, is not exclusive. *)
Example exclusive_rejects :
  exclusive [EvBegin spiSettings; EvWrite 53 LOW; EvTransfer 0x60 0;
             EvWrite 49 LOW; EvTransfer 0x60 0; EvWrite 49 HIGH;
             EvWrite 53 HIGH; EvEnd] = false /\
  exclusive [EvBegin spiSettings; EvWrite 53 LOW; EvTransfer 0x60 0;
             EvWrite 49 HIGH; EvEnd] = false /\
  exclusive [EvBegin spiSettings; EvWrite 53 LOW; EvTransfer 0x60 0;
             EvWrite 53 HIGH; EvDelay 1; EvWrite 49 LOW; EvTransfer 0xE0 0;
             EvWrite 49 HIGH; EvEnd] = true.
Proof. repeat split. Qed.

(** ** The sketch *)

Section SketchFacts.

Context {D : Type} `{SpiSlave D}.





End SketchFacts.


(** Two passes against a line that replays four bytes for [Initialize] and
    then, after a byte for each opcode, the bytes of 300 and of -2: the
    console shows 300 and -2. *)
Example sketch_prints_300 :
  console (loops 2 (setup (static_init
             (mkBoard (bench [0; 0; 0; 0;
                              0; 0x00; 0x00; 0x01; 0x2C;
                              0; 0xFF; 0xFF; 0xFF; 0xFE]) []))))
  = [SerialBegin 115200;
     SerialPrintln (Ok 300); DelayMs 250;
     SerialPrintln (Ok (-2)); DelayMs 250].
Proof. vm_compute. reflexivity. Qed.

(** ** Against the device, in general *)

Lemma big_endian_from (l : list Z) (acc : Z) :
  fold_left (fun a b => Z.shiftl a 8 + b) l acc
  = acc * 256 ^ Z.of_nat (length l) + big_endian l.
Proof.
  unfold big_endian. revert acc.
  induction l as [| x l IH]; intros acc.
  - cbn. lia.
  - cbn [fold_left length]. rewrite IH, (IH (Z.shiftl 0 8 + x)).
    rewrite !Z.shiftl_mul_pow2 by lia. change (2 ^ 8) with 256.
    rewrite Nat2Z.inj_succ, Z.pow_succ_r by lia. lia.
Qed.

(** What the device sends is what the shift-and-add assembly undoes. *)
Lemma big_endian_be_bytes (n : nat) (c : Z) :
  big_endian (Chip.be_bytes n c) = c mod 256 ^ Z.of_nat n.
Proof.
  induction n as [| n IH].
  - cbn. rewrite Z.mod_1_r. reflexivity.
  - cbn [Chip.be_bytes]. unfold big_endian. cbn [fold_left].
    rewrite big_endian_from, IH.
    assert (L : length (Chip.be_bytes n c) = n).
    { clear IH. induction n as [| k IHk]; cbn [Chip.be_bytes length]; congruence. }
    rewrite L, Nat2Z.inj_succ, Z.pow_succ_r by lia.
    assert (P : 0 < 256 ^ Z.of_nat n) by (apply Z.pow_pos_nonneg; lia).
    rewrite (Z.mul_comm 256), Z.rem_mul_r by lia.
    rewrite Z.shiftl_mul_pow2 by lia. lia.
Qed.

Lemma u8_mod_256 (x : Z) : u8 (x mod 256) = x mod 256.
Proof. unfold u8, unsigned. change (2 ^ 8) with 256. apply Z.mod_mod. lia. Qed.

Ltac chip_steps :=
  cbv [on_select on_transfer Chip_slave Chip.select Chip.exchange Chip.opcode Chip.enter
       Chip.store Chip.be_bytes Chip.phase Chip.mdr0 Chip.mdr1 Chip.dtr Chip.cntr
       fst snd Z.eqb Pos.eqb].

Ltac primitives t :=
  eval cbv [ret SPI.beginTransaction SPI.transfer SPI.endTransaction
            digitalWrite pinMode delayMicroseconds record
            fst snd slave wired level direction log] in t.

(** One operation of the runtime at a time, the device answering as the
    width [n] in bytes says. *)
Ltac chip_walk n :=
  cbv [ReadCount Read32 Read16 Initialize Zero reverse ss mode];
  repeat
    (match goal with
     | |- context [bind ?m ?k (mkWorld ?a ?b ?c ?d ?e)] =>
       let r := primitives (m (mkWorld a b c d e)) in
       change (bind m k (mkWorld a b c d e)) with (k (fst r) (snd r))
     end;
     cbv beta iota zeta delta [fst snd];
     rewrite ?Z.eqb_refl;
     change (u8 96) with 96; change (u8 0) with 0;
     chip_steps;
     repeat match goal with
            | |- context [Chip.width ?s] => change (Chip.width s) with n
            end;
     chip_steps);
  cbv [ret SPI.beginTransaction SPI.transfer SPI.endTransaction
       digitalWrite pinMode delayMicroseconds record
       fst snd slave wired level direction log].

Lemma Read32_counter (w : World Chip.State) (self : LS7366R) :
  ss self = wired w -> Chip.phase (slave w) = Chip.Released ->
  Chip.mdr1 (slave w) = 0 -> reverse self = false ->
  fst (Read32 self w) = twos_complement 32 (Chip.cntr (slave w) mod 2 ^ 32) /\
  slave (snd (Read32 self w)) = slave w.
Proof.
  destruct w as [lv dir wp [a b c cn ph] lg], self as [pin md m R rev].
  cbn [ss wired slave Chip.phase Chip.mdr1 Chip.cntr reverse]. intros -> -> -> ->.
  split.
  - chip_walk 4%nat.
    rewrite assemble32 by apply u8_is_uint8.
    rewrite !u8_mod_256.
    change [(cn / 256 ^ Z.of_nat 3) mod 256; (cn / 256 ^ Z.of_nat 2) mod 256;
            (cn / 256 ^ Z.of_nat 1) mod 256; (cn / 256 ^ Z.of_nat 0) mod 256]
      with (Chip.be_bytes 4 cn).
    rewrite big_endian_be_bytes. reflexivity.
  - chip_walk 4%nat. reflexivity.
Qed.

Lemma Read16_counter (w : World Chip.State) (self : LS7366R) :
  ss self = wired w -> Chip.phase (slave w) = Chip.Released ->
  Chip.mdr1 (slave w) = 2 -> reverse self = false ->
  fst (Read16 self w) = twos_complement 16 (Chip.cntr (slave w) mod 2 ^ 16) /\
  slave (snd (Read16 self w)) = slave w.
Proof.
  destruct w as [lv dir wp [a b c cn ph] lg], self as [pin md m R rev].
  cbn [ss wired slave Chip.phase Chip.mdr1 Chip.cntr reverse]. intros -> -> -> ->.
  split.
  - chip_walk 2%nat.
    rewrite assemble16 by apply u8_is_uint8.
    rewrite !u8_mod_256.
    change [(cn / 256 ^ Z.of_nat 1) mod 256; (cn / 256 ^ Z.of_nat 0) mod 256]
      with (Chip.be_bytes 2 cn).
    rewrite big_endian_be_bytes. reflexivity.
  - chip_walk 2%nat. reflexivity.
Qed.

(** The plain channel of either width reads the device's counter. *)
Lemma ReadCount_counter (w : World Chip.State) (pin : Z) (md : CounterMode) (m : Q) (R : Z) :
  pin = wired w -> Chip.phase (slave w) = Chip.Released ->
  Chip.mdr1 (slave w) = CounterMode_code md ->
  fst (ReadCount (mkLS7366R pin md m R false) w)
  = twos_complement (count_bits md) (Chip.cntr (slave w) mod 2 ^ count_bits md) /\
  slave (snd (ReadCount (mkLS7366R pin md m R false) w)) = slave w.
Proof.
  intros A P M. unfold ReadCount. cbn [mode].
  destruct md; cbn [count_bits CounterMode_code] in *.
  - apply Read32_counter; (assumption || reflexivity).
  - apply Read16_counter; (assumption || reflexivity).
Qed.

Lemma ReadCount_same_traffic (w : World Chip.State) (pin : Z) (md : CounterMode) (m : Q) (R : Z) :
  snd (ReadCount (mkLS7366R pin md m R true) w)
  = snd (ReadCount (mkLS7366R pin md m R false) w).
Proof.
  unfold ReadCount. cbn [mode].
  destruct md; [apply Read32_same_traffic | apply Read16_same_traffic].
Qed.

Lemma ReadCount_inverts (w : World Chip.State) (pin : Z) (md : CounterMode) (m : Q) (R : Z) :
  fst (ReadCount (mkLS7366R pin md m R true) w)
  = narrow md (- fst (ReadCount (mkLS7366R pin md m R false) w)).
Proof.
  unfold ReadCount. cbn [mode].
  destruct md; cbn [narrow]; [apply Read32_negates | apply Read16_negates].
Qed.

(** What [Read] returns on the device's line, from the device's counter. *)
Lemma Read_on_chip (u : World Chip.State) (pin : Z) (md : CounterMode) (m : Q) (R : Z)
    (rev : bool) :
  pin = wired u -> Chip.phase (slave u) = Chip.Released ->
  Chip.mdr1 (slave u) = CounterMode_code md ->
  fst (Read (mkLS7366R pin md m R rev) u)
  = Format (mkLS7366R pin md m R rev)
      (if rev
       then narrow md (- twos_complement (count_bits md)
                           (Chip.cntr (slave u) mod 2 ^ count_bits md))
       else twos_complement (count_bits md)
              (Chip.cntr (slave u) mod 2 ^ count_bits md)) /\
  slave (snd (Read (mkLS7366R pin md m R rev) u)) = slave u /\
  wired (snd (Read (mkLS7366R pin md m R rev) u)) = wired u.
Proof.
  intros A P M.
  destruct (ReadCount_counter u pin md m R A P M) as [Count Same].
  split; [| split].
  - rewrite (proj1 (Read_Format _ u)). f_equal.
    destruct rev; [rewrite ReadCount_inverts |]; rewrite Count; reflexivity.
  - rewrite (proj2 (Read_Format _ u)).
    destruct rev; [rewrite ReadCount_same_traffic |]; exact Same.
  - destruct u as [lv dir wp d lg].
    destruct md; [rewrite Read_32 | rewrite Read_16]; run; reflexivity.
Qed.

(** X13.  Against the device: a channel on the device's line, in the width
    the device is programmed for, reads the device's counter as a signed
    number of that width, negated within the width when the direction is
    inverted, and leaves every register of the device as it was, so that a
    second read returns the same. *)
Theorem Read_returns_counter (w : World Chip.State) (self : LS7366R) :
  ss self = wired w ->
  Chip.phase (slave w) = Chip.Released ->
  Chip.mdr1 (slave w) = CounterMode_code (mode self) ->
  let bits := count_bits (mode self) in
  let c := twos_complement bits (Chip.cntr (slave w) mod 2 ^ bits) in
  fst (Read self w) = Format self (if reverse self then narrow (mode self) (- c) else c) /\
  slave (snd (Read self w)) = slave w /\
  fst (Read self (snd (Read self w))) = fst (Read self w).
Proof.
  destruct self as [pin md m R rev]. cbn [ss mode reverse].
  intros A P M. cbv zeta.
  destruct (Read_on_chip w pin md m R rev A P M) as (Value & Slave & Wired).
  split; [exact Value |]. split; [exact Slave |].
  rewrite Value.
  destruct (Read_on_chip (snd (Read (mkLS7366R pin md m R rev) w)) pin md m R rev)
    as (Value' & _ & _); rewrite ?Slave, ?Wired; try assumption.
  rewrite Value', Slave. reflexivity.
Qed.

Lemma Read_returns_counter_witness :
  ss (mkLS7366R 53 BITS_16 1 0 true) = wired (bench (Chip.mkState 1 2 0 65533 Chip.Released)) /\
  Chip.phase (slave (bench (Chip.mkState 1 2 0 65533 Chip.Released))) = Chip.Released /\
  Chip.mdr1 (slave (bench (Chip.mkState 1 2 0 65533 Chip.Released)))
    = CounterMode_code (mode (mkLS7366R 53 BITS_16 1 0 true)) /\
  fst (Read (mkLS7366R 53 BITS_16 1 0 true) (bench (Chip.mkState 1 2 0 65533 Chip.Released)))
    = Ok 3.
Proof.
  assert (A : ss (mkLS7366R 53 BITS_16 1 0 true)
              = wired (bench (Chip.mkState 1 2 0 65533 Chip.Released))) by reflexivity.
  assert (P : Chip.phase (slave (bench (Chip.mkState 1 2 0 65533 Chip.Released)))
              = Chip.Released) by reflexivity.
  assert (M : Chip.mdr1 (slave (bench (Chip.mkState 1 2 0 65533 Chip.Released)))
              = CounterMode_code (mode (mkLS7366R 53 BITS_16 1 0 true))) by reflexivity.
  split; [exact A |]. split; [exact P |]. split; [exact M |].
  exact (eq_trans (proj1 (Read_returns_counter _ _ A P M)) eq_refl).
Defined.




